(** * Pybricks Code: firmware installation dialog, flash button and alerts

    A shallow embedding of the parts of the Pybricks Code sources that the
    specification is about:

    - [InstallPybricksDialog]: [getHubTypeFromMetadata] and the event
      handlers of the multi-step dialog (src/unnamed/part_001);
    - [Alerts]: the [handleShowAlert] saga (src/src/alerts/sagas.ts);
    - [FlashButton]: the toolbar button that starts flashing
      (src/unnamed/part_000);
    - [FlashCore]: the connection coordinator and the flash session of the
      specification, whose code is not part of the sources at hand. *)

From stdpp Require Import base decidable option list strings.
From Stdlib Require Import ZArith Lia Sorted.
From Equations Require Import Equations.

Local Open Scope string_scope.
Local Open Scope list_scope.

(** ** The install dialog (src/unnamed/part_001) *)

Module InstallPybricksDialog.

(** What the file imports from modules that are not at hand.  Every theorem
    below is stated for an arbitrary instance.

    - [Hub] is the enum of [components/hubPicker]; the source names the five
      members [Hub.Move], [Hub.City], [Hub.Technic], [Hub.Prime] and
      [Hub.Essential].
    - [DeviceId] is the type of the values of [metadata['device-id']], and
      [HubType_*] are the members of the [HubType] enum of
      [@pybricks/firmware] the [switch] compares it with ([===]).
    - [hubBootloaderType] and [hubHasExternalFlash] come from
      [components/hubPicker], [validateHubName] from the dialog's [index]
      module. *)
Class Imports := {
  Hub : Type;
  Hub_Move : Hub;
  Hub_City : Hub;
  Hub_Technic : Hub;
  Hub_Prime : Hub;
  Hub_Essential : Hub;
  DeviceId : Type;
  #[global] DeviceId_eq_dec :: EqDecision DeviceId;
  HubType_MoveHub : DeviceId;
  HubType_CityHub : DeviceId;
  HubType_TechnicHub : DeviceId;
  HubType_PrimeHub : DeviceId;
  HubType_EssentialHub : DeviceId;
  BootloaderType : Type;
  hubBootloaderType : Hub -> BootloaderType;
  hubHasExternalFlash : Hub -> bool;
  validateHubName : string -> bool;
}.

Section Dialog.
Context `{Imports}.

(** [FirmwareMetadata] of [@pybricks/firmware]: the two fields the file
    reads. *)
Record FirmwareMetadata := {
  device_id : DeviceId;
  firmware_version : string;
}.

(** An [ArrayBuffer] is its bytes. *)
Definition ArrayBuffer := list Byte.byte.

(** What [useFirmware] and [useCustomFirmware] hand out once loaded. *)
Record FirmwareData := {
  firmwareZip : ArrayBuffer;
  licenseText : string;
  metadata : FirmwareMetadata;
}.

(** [FileMetadata] of [fileStorage]: the fields the file reads. *)
Record FileMetadata := {
  path : string;
  uuid : string;
}.

(** Translates hub type from firmware metadata to local hub type.  The
    argument is [None] for [undefined]: [metadata?.['device-id']] is then
    [undefined], which no [case] matches. *)
Definition getHubTypeFromMetadata
    (metadata : option FirmwareMetadata) (fallback : Hub) : Hub :=
  match device_id <$> metadata with
  | Some d =>
      if decide (d = HubType_MoveHub) then Hub_Move
      else if decide (d = HubType_CityHub) then Hub_City
      else if decide (d = HubType_TechnicHub) then Hub_Technic
      else if decide (d = HubType_PrimeHub) then Hub_Prime
      else if decide (d = HubType_EssentialHub) then Hub_Essential
      else fallback
  | None => fallback
  end.

Definition getHubTypeNameFromMetadata
    (metadata : option FirmwareMetadata) : string :=
  match device_id <$> metadata with
  | Some d =>
      if decide (d = HubType_MoveHub) then "BOOST Move Hub"
      else if decide (d = HubType_CityHub) then "City Hub"
      else if decide (d = HubType_TechnicHub) then "Technic Hub"
      else if decide (d = HubType_PrimeHub)
      then "SPIKE Prime/MINDSTORMS Robot Inventor hub"
      else if decide (d = HubType_EssentialHub) then "SPIKE Essential hub"
      else "?"
  | None => "?"
  end.

(** The values the component reads from the store and from its hooks in one
    render: [isOpen] ([useSelector]), [hubType] ([useHubPickerSelectedHub]),
    [useFirmware] at a hub type, and the result of
    [useCustomFirmware(customFirmwareZip)].  The hooks load their data
    asynchronously, so a snapshot comes with every event. *)
Record Hooks := {
  isOpen : bool;
  hubType : Hub;
  useFirmware : Hub -> option FirmwareData;
  isCustomFirmwareRequested : bool;
  customFirmwareData : option FirmwareData;
}.

(** The component's [useState] cells, and the state of Blueprint's
    [MultistepDialog]: the step it shows (0 hub, 1 license, 2 options,
    3 bootloader) and the last step that has been shown.  A [File] stands
    by its name. *)
Record State := {
  hubName : string;
  includeProgram : bool;
  selectedIncludeFile : option FileMetadata;
  licenseAccepted : bool;
  customFirmwareZip : option string;
  step : nat;
  lastViewed : nat;
}.

Definition initialState : State :=
  {| hubName := "";
     includeProgram := false;
     selectedIncludeFile := None;
     licenseAccepted := false;
     customFirmwareZip := None;
     step := 0;
     lastViewed := 0 |}.

Definition selectedFirmwareData (h : Hooks) : option FirmwareData :=
  if isCustomFirmwareRequested h then customFirmwareData h
  else useFirmware h (hubType h).

Definition selectedHubType (h : Hooks) : Hub :=
  if isCustomFirmwareRequested h
  then getHubTypeFromMetadata (metadata <$> customFirmwareData h) (hubType h)
  else hubType h.

(** The actions of [./actions] the dialog dispatches. *)
Inductive Action :=
| firmwareInstallPybricksDialogAccept
    (bootloaderType : BootloaderType) (firmwareZip : ArrayBuffer)
    (customProgram : option string) (hubName : string)
| firmwareInstallPybricksDialogCancel.

(** [AcceptLicensePanel]: the firmware whose license is shown; the checkbox
    is disabled until it is there.  The panel's [hubType] property is
    [selectedHubType]. *)
Definition AcceptLicensePanel_selectedFirmwareData (h : Hooks)
  : option FirmwareData :=
  if isCustomFirmwareRequested h then customFirmwareData h
  else useFirmware h (selectedHubType h).

Definition AcceptLicensePanel_checkbox_disabled (h : Hooks) : bool :=
  bool_decide (AcceptLicensePanel_selectedFirmwareData h = None).

(** [ConfigureOptionsPanel]: what the hub name's validity is used for. *)
Inductive Intent := Intent_NONE | Intent_DANGER.

Definition ConfigureOptionsPanel_isHubNameValid (st : State) : bool :=
  validateHubName (hubName st).

Definition ConfigureOptionsPanel_intent (st : State) : Intent :=
  if ConfigureOptionsPanel_isHubNameValid st then Intent_NONE
  else Intent_DANGER.

Definition ConfigureOptionsPanel_errorIcon (st : State) : bool :=
  negb (ConfigureOptionsPanel_isHubNameValid st).

(** [nextButtonProps.disabled] of the four [DialogStep]s: only the license
    step sets it. *)
Definition nextButton_disabled (st : State) : bool :=
  match step st with
  | 1 => negb (licenseAccepted st)
  | _ => false
  end.

Definition lastStep : nat := 3.

(** What the user can do with the dialog: close it; press Next, Back or
    the final button in the footer; click a step in the list of steps; use
    the controls of the panel shown.  [Reopen] stands for the dialog being
    closed and opened again, which makes [MultistepDialog] start over at
    the first step and leaves the [useState] cells as they are. *)
Inductive Event :=
| Close
| Reopen
| ClickNext
| ClickBack
| ClickFinal
| ClickStep (index : nat)
| DropCustomFirmwareZip (file : option string)
| LicenseCheckbox (checked : bool)
| HubNameInput (value : string)
| IncludeProgramSwitch (checked : bool)
| IncludeFileSelect (file : FileMetadata).

(** [MultistepDialog] goes to step [n]. *)
Definition setStep (n : nat) (st : State) : State :=
  {| hubName := hubName st;
     includeProgram := includeProgram st;
     selectedIncludeFile := selectedIncludeFile st;
     licenseAccepted := licenseAccepted st;
     customFirmwareZip := customFirmwareZip st;
     step := n;
     lastViewed := lastViewed st `max` n |}.

Definition setHubName (s : string) (st : State) : State :=
  {| hubName := s;
     includeProgram := includeProgram st;
     selectedIncludeFile := selectedIncludeFile st;
     licenseAccepted := licenseAccepted st;
     customFirmwareZip := customFirmwareZip st;
     step := step st;
     lastViewed := lastViewed st |}.

Definition setIncludeProgram (b : bool) (st : State) : State :=
  {| hubName := hubName st;
     includeProgram := b;
     selectedIncludeFile := selectedIncludeFile st;
     licenseAccepted := licenseAccepted st;
     customFirmwareZip := customFirmwareZip st;
     step := step st;
     lastViewed := lastViewed st |}.

Definition setSelectedIncludeFile (f : option FileMetadata) (st : State)
  : State :=
  {| hubName := hubName st;
     includeProgram := includeProgram st;
     selectedIncludeFile := f;
     licenseAccepted := licenseAccepted st;
     customFirmwareZip := customFirmwareZip st;
     step := step st;
     lastViewed := lastViewed st |}.

Definition setLicenseAccepted (b : bool) (st : State) : State :=
  {| hubName := hubName st;
     includeProgram := includeProgram st;
     selectedIncludeFile := selectedIncludeFile st;
     licenseAccepted := b;
     customFirmwareZip := customFirmwareZip st;
     step := step st;
     lastViewed := lastViewed st |}.

Definition setCustomFirmwareZip (f : option string) (st : State) : State :=
  {| hubName := hubName st;
     includeProgram := includeProgram st;
     selectedIncludeFile := selectedIncludeFile st;
     licenseAccepted := licenseAccepted st;
     customFirmwareZip := f;
     step := step st;
     lastViewed := lastViewed st |}.

(** The final button's [onClick]. *)
Definition finalButton_onClick (h : Hooks) (st : State) : Action :=
  firmwareInstallPybricksDialogAccept
    (hubBootloaderType (selectedHubType h))
    (default [] (firmwareZip <$> selectedFirmwareData h))
    (path <$> selectedIncludeFile st)
    (hubName st).

(** [MultistepDialog] starts over. *)
Definition resetSteps (st : State) : State :=
  {| hubName := hubName st;
     includeProgram := includeProgram st;
     selectedIncludeFile := selectedIncludeFile st;
     licenseAccepted := licenseAccepted st;
     customFirmwareZip := customFirmwareZip st;
     step := 0;
     lastViewed := 0 |}.

(** One event on the rendered dialog: the new state and what is dispatched.
    A control that is not rendered or is disabled takes no event: Next on
    the last step or when [nextButtonProps.disabled], Back on the first
    step, the final button off the last step, a step of the list that has
    not been shown yet, and each panel's controls off its step.  No handler
    looks at [isOpen]: it only goes to [MultistepDialog], whose controls
    stay on screen, and take events, while the dialog closes. *)
Definition handle (h : Hooks) (st : State) (ev : Event)
  : State * list Action :=
  match ev with
  | Close => (st, [firmwareInstallPybricksDialogCancel])
  | Reopen => (resetSteps st, [])
  | ClickNext =>
      if bool_decide (step st < lastStep) && negb (nextButton_disabled st)
      then (setStep (S (step st)) st, [])
      else (st, [])
  | ClickBack =>
      if bool_decide (0 < step st)
      then (setStep (pred (step st)) st, [])
      else (st, [])
  | ClickFinal =>
      if bool_decide (step st = lastStep)
      then (st, [finalButton_onClick h st])
      else (st, [])
  | ClickStep index =>
      if bool_decide (index <= lastViewed st)
         && bool_decide (index <= lastStep)
      then (setStep index st, [])
      else (st, [])
  | DropCustomFirmwareZip f =>
      if bool_decide (step st = 0)
      then (setCustomFirmwareZip f st, [])
      else (st, [])
  | LicenseCheckbox b =>
      if bool_decide (step st = 1)
         && negb (AcceptLicensePanel_checkbox_disabled h)
      then (setLicenseAccepted b st, [])
      else (st, [])
  | HubNameInput s =>
      if bool_decide (step st = 2)
      then (setHubName s st, [])
      else (st, [])
  | IncludeProgramSwitch b =>
      if bool_decide (step st = 2)
         && negb (hubHasExternalFlash (selectedHubType h))
      then (setIncludeProgram b st, [])
      else (st, [])
  | IncludeFileSelect f =>
      if bool_decide (step st = 2)
         && negb (hubHasExternalFlash (selectedHubType h))
         && includeProgram st
      then (setSelectedIncludeFile (Some f) st, [])
      else (st, [])
  end.

(** A session with the dialog: each event with the hook values of the
    render it lands on; the actions dispatched, in order. *)
Fixpoint run (st : State) (evs : list (Hooks * Event))
  : State * list Action :=
  match evs with
  | [] => (st, [])
  | (h, ev) :: evs' =>
      let '(st1, out1) := handle h st ev in
      let '(st2, out2) := run st1 evs' in
      (st2, out1 ++ out2)
  end.

Definition dispatched (evs : list (Hooks * Event)) : list Action :=
  snd (run initialState evs).

(** The hub names of the accept actions among [acts]. *)
Definition acceptedHubNames (acts : list Action) : list string :=
  omap (fun a => match a with
                 | firmwareInstallPybricksDialogAccept _ _ _ n => Some n
                 | firmwareInstallPybricksDialogCancel => None
                 end) acts.

(** The device ids the [switch] of [getHubTypeFromMetadata] has a [case]
    for. *)
Definition knownHubTypes : list DeviceId :=
  [HubType_MoveHub; HubType_CityHub; HubType_TechnicHub; HubType_PrimeHub;
   HubType_EssentialHub].

(** Metadata the [switch] has no [case] for: [undefined], or a device id
    outside [knownHubTypes]. *)
Definition unrecognized (m : option FirmwareMetadata) : Prop :=
  match m with
  | Some md => device_id md ∉ knownHubTypes
  | None => True
  end.

(** The shortest way through the dialog that types [name] as the hub name:
    Next, tick the license, Next, type the name, Next, press the final
    button. *)
Definition typeNameAndFlash (h : Hooks) (name : string)
  : list (Hooks * Event) :=
  [(h, ClickNext); (h, LicenseCheckbox true); (h, ClickNext);
   (h, HubNameInput name); (h, ClickNext); (h, ClickFinal)].

(** The values typed into the hub name input during [evs]. *)
Definition typedHubNames (evs : list (Hooks * Event)) : list string :=
  omap (fun e => match snd e with HubNameInput s => Some s | _ => None end)
       evs.

End Dialog.

(** *** What the runs of the dialog are asked about *)

Section DialogRuns.
Context `{Imports}.

(** The hub each [case] of [getHubTypeFromMetadata] returns. *)
Definition knownHubs : list (DeviceId * Hub) :=
  [(HubType_MoveHub, Hub_Move); (HubType_CityHub, Hub_City);
   (HubType_TechnicHub, Hub_Technic); (HubType_PrimeHub, Hub_Prime);
   (HubType_EssentialHub, Hub_Essential)].

(** The license checkbox was ticked during [evs], in a render whose
    license panel had the firmware whose license it shows. *)
Definition licenseTicked (evs : list (Hooks * Event)) : Prop :=
  exists h : Hooks,
    (h, LicenseCheckbox true) ∈ evs
    /\ AcceptLicensePanel_selectedFirmwareData h <> None.

(** The custom programs of the accept actions among [acts]. *)
Definition acceptedPrograms (acts : list Action) : list (option string) :=
  omap (fun a => match a with
                 | firmwareInstallPybricksDialogAccept _ _ p _ => Some p
                 | firmwareInstallPybricksDialogCancel => None
                 end) acts.

(** The files picked in the file select during [evs]. *)
Definition selectedFiles (evs : list (Hooks * Event)) : list FileMetadata :=
  omap (fun e => match snd e with IncludeFileSelect f => Some f | _ => None end)
       evs.

(** Through the dialog with the include switch turned on, the file [f]
    picked, and the switch turned off again before the final button. *)
Definition includeThenExclude (h : Hooks) (f : FileMetadata)
  : list (Hooks * Event) :=
  [(h, ClickNext); (h, LicenseCheckbox true); (h, ClickNext);
   (h, IncludeProgramSwitch true); (h, IncludeFileSelect f);
   (h, IncludeProgramSwitch false); (h, ClickNext); (h, ClickFinal)].

(** Through the dialog with the license ticked, then Back to the license
    step, the tick taken away, and on by the list of steps (the options
    step has been shown, so its entry can be clicked) to the final
    button. *)
Definition tickUntickAndFlash (h : Hooks) : list (Hooks * Event) :=
  [(h, ClickNext); (h, LicenseCheckbox true); (h, ClickNext);
   (h, ClickBack); (h, LicenseCheckbox false); (h, ClickStep 2);
   (h, ClickNext); (h, ClickFinal)].

(** Through the dialog with the license ticked and every step shown, in
    renders with the hook values [h1]; then back to the first step by the
    list of steps and a custom firmware dropped; then, in renders with the
    hook values [h2] (the custom firmware has loaded), on to the last step
    by the list of steps and the final button. *)
Definition tickThenSwapFirmware (h1 h2 : Hooks) (file : string)
  : list (Hooks * Event) :=
  [(h1, ClickNext); (h1, LicenseCheckbox true); (h1, ClickNext);
   (h1, ClickNext); (h1, ClickStep 0);
   (h1, DropCustomFirmwareZip (Some file));
   (h2, ClickStep 3); (h2, ClickFinal)].

(** What holds of the dialog's state when [ticked] says whether the license
    was ticked so far: the step shown has been shown, and neither an
    accepted license nor a step past the license step comes without a
    tick. *)
Definition licenseKept (ticked : Prop) (st : State) : Prop :=
  step st <= lastViewed st
  /\ (licenseAccepted st = true -> ticked)
  /\ (2 <= lastViewed st -> ticked).

End DialogRuns.

(** *** A sample instance

    The members of the enums are told apart, the device ids are those of the
    [HubType] enum of [@pybricks/firmware] (0x40, 0x41, 0x80, 0x81, 0x83),
    and hubs with USB have external flash and the DFU bootloader.  It serves
    to run the definitions on concrete inputs. *)
Inductive SampleHub := Move | City | Technic | Prime | Essential.

Inductive SampleBootloader := ble_lwp3_bootloader | usb_lego_dfu.

(** Modelled from the spec: [validateHubName] is imported from the dialog's
    [index] module, which is not among the sources; the specification only
    says the hub name is validated for length and character set.  This model
    accepts the names of at most 16 characters, all of them printable
    ASCII. *)
Definition sampleValidateHubName (s : string) : bool :=
  bool_decide (String.length s <= 16)
  && forallb (fun c => bool_decide (32 <= Ascii.nat_of_ascii c < 127))
             (String.list_ascii_of_string s).

Definition sampleImports : Imports := {|
  Hub := SampleHub;
  Hub_Move := Move;
  Hub_City := City;
  Hub_Technic := Technic;
  Hub_Prime := Prime;
  Hub_Essential := Essential;
  DeviceId := Z;
  HubType_MoveHub := 0x40%Z;
  HubType_CityHub := 0x41%Z;
  HubType_TechnicHub := 0x80%Z;
  HubType_PrimeHub := 0x81%Z;
  HubType_EssentialHub := 0x83%Z;
  BootloaderType := SampleBootloader;
  hubBootloaderType := fun hub =>
    match hub with
    | Prime | Essential => usb_lego_dfu
    | _ => ble_lwp3_bootloader
    end;
  hubHasExternalFlash := fun hub =>
    match hub with
    | Prime | Essential => true
    | _ => false
    end;
  validateHubName := sampleValidateHubName;
|}.

#[local] Existing Instance sampleImports.

(** Firmware for every hub, no custom firmware dropped, the City hub
    picked. *)
Definition sampleFirmware (hub : SampleHub) : FirmwareData :=
  {| firmwareZip := [Byte.x50; Byte.x4b];
     licenseText := "MIT";
     metadata := {| device_id :=
                      match hub with
                      | Move => 0x40%Z
                      | City => 0x41%Z
                      | Technic => 0x80%Z
                      | Prime => 0x81%Z
                      | Essential => 0x83%Z
                      end;
                    firmware_version := "3.2.0" |} |}.

Definition sampleHooks : Hooks :=
  {| isOpen := true;
     hubType := City;
     useFirmware := fun hub => Some (sampleFirmware hub);
     isCustomFirmwareRequested := false;
     customFirmwareData := None |}.

(** A custom firmware whose metadata names a device id the dialog does not
    know, dropped while the City hub is picked. *)
Definition unknownFirmware : FirmwareData :=
  {| firmwareZip := [Byte.x50; Byte.x4b];
     licenseText := "MIT";
     metadata := {| device_id := 0xA0%Z; firmware_version := "0.0.1" |} |}.

Definition customHooks : Hooks :=
  {| isOpen := true;
     hubType := City;
     useFirmware := fun hub => Some (sampleFirmware hub);
     isCustomFirmwareRequested := true;
     customFirmwareData := Some unknownFirmware |}.

(** The Prime hub picked, which has external flash; a custom firmware for
    the Technic hub dropped while the City hub is picked; a file of the
    file storage. *)
Definition primeHooks : Hooks :=
  {| isOpen := true;
     hubType := Prime;
     useFirmware := fun hub => Some (sampleFirmware hub);
     isCustomFirmwareRequested := false;
     customFirmwareData := None |}.

Definition technicHooks : Hooks :=
  {| isOpen := true;
     hubType := City;
     useFirmware := fun hub => Some (sampleFirmware hub);
     isCustomFirmwareRequested := true;
     customFirmwareData := Some (sampleFirmware Technic) |}.

Definition sampleFile : FileMetadata :=
  {| path := "main.py"; uuid := "0f4f7a0e" |}.

(** A custom firmware for the City hub under another license, loaded. *)
Definition gplFirmware : FirmwareData :=
  {| firmwareZip := [Byte.x50; Byte.x4b; Byte.x03; Byte.x04];
     licenseText := "GPL-3.0";
     metadata := {| device_id := 0x41%Z; firmware_version := "0.0.1" |} |}.

Definition gplHooks : Hooks :=
  {| isOpen := true;
     hubType := City;
     useFirmware := fun hub => Some (sampleFirmware hub);
     isCustomFirmwareRequested := true;
     customFirmwareData := Some gplFirmware |}.

End InstallPybricksDialog.

(** ** The alerts saga (src/src/alerts/sagas.ts) *)

Module Alerts.

(** What the saga takes from elsewhere: the type of [action.props] with
    JavaScript's [JSON.stringify], the toast properties of Blueprint, and
    [getAlertProps] of the [alerts] module, which builds the toast of an
    alert around the [emit] function of an event channel (a channel stands
    by its number, and so does its [emit]). *)
Class Imports := {
  Props : Type;
  JSON_stringify : Props -> string;
  ToastProps : Type;
  getAlertProps : string -> string -> nat -> Props -> ToastProps;
}.

Section Saga.
Context `{Imports}.

(** An event channel, by the order of its creation; [emit] of channel [c]
    is [c] itself. *)
Definition Chan := nat.

(** The [alertsShowAlert] action. *)
Record ShowAlert := {
  domain : string;
  specific : string;
  props : Props;
}.

(** The actions the saga puts. *)
Inductive Action :=
| alertsDidShowAlert (domain specific action : string).

(** A toast of the toaster: the properties it was shown with and its key. *)
Record Toast := {
  toast_props : ToastProps;
  toast_key : string;
}.

(** [IToaster] of [@blueprintjs/core], on the list of the toasts on screen,
    newest first: [getToasts] returns the list, [dismiss] removes the toasts
    with the key, and [show] with a key updates the toast that has the key
    in place, or puts a new toast in front when none has.  Each call takes
    effect before the next one. *)
Definition toaster_getToasts (toasts : list Toast) : list Toast := toasts.

Definition toaster_dismiss (key : string) (toasts : list Toast) : list Toast :=
  filter (fun t => toast_key t <> key) toasts.

Definition toaster_isNewToastKey (key : string) (toasts : list Toast) : bool :=
  forallb (fun t => negb (bool_decide (toast_key t = key))) toasts.

Definition toaster_show (props : ToastProps) (key : string)
    (toasts : list Toast) : list Toast :=
  let options := {| toast_props := props; toast_key := key |} in
  if toaster_isNewToastKey key toasts then options :: toasts
  else (fun t => if bool_decide (toast_key t = key) then options else t)
       <$> toasts.

(** A saga as the effects it yields, each with what the saga does with the
    effect's result.  [EventChannel subscribe key] stands for creating an
    event channel whose subscriber shows a toast:
    [eventChannel((emit) => { toaster.show(subscribe(emit), key); ... })]. *)
Inductive Saga :=
| Return
| ToasterGetToasts (k : list Toast -> Saga)
| ToasterDismiss (key : string) (k : Saga)
| Delay (ms : nat) (k : Saga)
| EventChannel (subscribe : Chan -> ToastProps) (key : string)
    (k : Chan -> Saga)
| Take (chan : Chan) (k : string -> Saga)
| Put (a : Action) (k : Saga)
| ChanClose (chan : Chan) (k : Saga).

Definition alertKey (action : ShowAlert) : string :=
  domain action +:+ "." +:+ specific action +:+ "."
  +:+ JSON_stringify (props action).

(** The handler once its toast has emitted [alertAction]: report it and
    close the channel (the [try] block after [take], and [finally]). *)
Definition report (action : ShowAlert) (chan : Chan) (alertAction : string)
  : Saga :=
  Put (alertsDidShowAlert (domain action) (specific action) alertAction)
    (ChanClose chan Return).

(** The handler from the creation of the channel on: show the toast, then
    wait for what it emits. *)
Definition showAndReport (action : ShowAlert) : Saga :=
  EventChannel
    (fun emit =>
       getAlertProps (domain action) (specific action) emit (props action))
    (alertKey action)
    (fun chan => Take chan (report action chan)).

(** Shows an alert to the user and avoids duplicate alerts.
    ([getContext('toaster')] hands out the toaster the effects act on.) *)
Definition handleShowAlert (action : ShowAlert) : Saga :=
  let key := alertKey action in
  ToasterGetToasts (fun toasts =>
    let existing :=
      filter (fun t => toast_key t = key) (toaster_getToasts toasts) in
    if bool_decide (0 < length existing)
    then ToasterDismiss key (Delay 500 (showAndReport action))
    else showAndReport action).

(** *** Running the sagas

    [takeEvery(alertsShowAlert, handleShowAlert)] forks a handler for every
    action; a handler runs until it yields [delay] or a [take] on a channel
    nothing was emitted on, and waits from there.  A waiting handler is
    kept with its number (the handlers are numbered as they are forked). *)
Inductive Waiting :=
| Sleeping (wake : nat) (k : Saga)
| Taking (chan : Chan) (k : string -> Saga).

(** What the handlers did to the toaster, with the time and the handler. *)
Inductive Did := Dismissed (key : string) | Shown (key : string).

Record Entry := {
  at_ms : nat;
  by_handler : nat;
  did : Did;
}.

Record System := {
  toasts : list Toast;
  now : nat;
  waiting : list (nat * Waiting);
  forked : nat;
  channels : nat;
  puts : list Action;
  log : list Entry;
}.

Definition start : System :=
  {| toasts := [];
     now := 0;
     waiting := [];
     forked := 0;
     channels := 0;
     puts := [];
     log := [] |}.

(** Handler [id] runs [saga] until it waits or returns. *)
Fixpoint exec (id : nat) (saga : Saga) (s : System) : System :=
  match saga with
  | Return => s
  | ToasterGetToasts k => exec id (k (toaster_getToasts (toasts s))) s
  | ToasterDismiss key k =>
      exec id k
        {| toasts := toaster_dismiss key (toasts s);
           now := now s;
           waiting := waiting s;
           forked := forked s;
           channels := channels s;
           puts := puts s;
           log := log s ++ [{| at_ms := now s; by_handler := id;
                               did := Dismissed key |}] |}
  | Delay ms k =>
      {| toasts := toasts s;
         now := now s;
         waiting := waiting s ++ [(id, Sleeping (now s + ms) k)];
         forked := forked s;
         channels := channels s;
         puts := puts s;
         log := log s |}
  | EventChannel subscribe key k =>
      exec id (k (channels s))
        {| toasts := toaster_show (subscribe (channels s)) key (toasts s);
           now := now s;
           waiting := waiting s;
           forked := forked s;
           channels := S (channels s);
           puts := puts s;
           log := log s ++ [{| at_ms := now s; by_handler := id;
                               did := Shown key |}] |}
  | Take chan k =>
      {| toasts := toasts s;
         now := now s;
         waiting := waiting s ++ [(id, Taking chan k)];
         forked := forked s;
         channels := channels s;
         puts := puts s;
         log := log s |}
  | Put a k =>
      exec id k
        {| toasts := toasts s;
           now := now s;
           waiting := waiting s;
           forked := forked s;
           channels := channels s;
           puts := puts s ++ [a];
           log := log s |}
  | ChanClose chan k => exec id k s
  end.

(** What happens around the sagas: an [alertsShowAlert] action is
    dispatched; time passes; the timer of the [n]-th waiting handler fires
    (not before its delay is over); a toast emits a string on its channel;
    the toaster takes a toast off the screen (its timeout, its close button,
    the limit on the number of toasts). *)
Inductive Input :=
| Dispatch (action : ShowAlert)
| Elapse (ms : nat)
| TimerFires (n : nat)
| Emit (chan : Chan) (alertAction : string)
| ToastGone (key : string).

Definition setWaiting (w : list (nat * Waiting)) (s : System) : System :=
  {| toasts := toasts s;
     now := now s;
     waiting := w;
     forked := forked s;
     channels := channels s;
     puts := puts s;
     log := log s |}.

(** The waiting handler that takes from [chan]: its place among the waiting
    handlers (counted from [n]), its number and what it does with the
    string. *)
Fixpoint findTaking (chan : Chan) (ws : list (nat * Waiting)) (n : nat)
  : option (nat * nat * (string -> Saga)) :=
  match ws with
  | [] => None
  | (id, Taking c k) :: ws' =>
      if bool_decide (c = chan) then Some (n, id, k)
      else findTaking chan ws' (S n)
  | (_, Sleeping _ _) :: ws' => findTaking chan ws' (S n)
  end.

Definition step (s : System) (i : Input) : System :=
  match i with
  | Dispatch action =>
      exec (forked s) (handleShowAlert action)
        {| toasts := toasts s;
           now := now s;
           waiting := waiting s;
           forked := S (forked s);
           channels := channels s;
           puts := puts s;
           log := log s |}
  | Elapse ms =>
      {| toasts := toasts s;
         now := now s + ms;
         waiting := waiting s;
         forked := forked s;
         channels := channels s;
         puts := puts s;
         log := log s |}
  | TimerFires n =>
      match waiting s !! n with
      | Some (id, Sleeping wake k) =>
          if bool_decide (wake <= now s)
          then exec id k (setWaiting (delete n (waiting s)) s)
          else s
      | _ => s
      end
  | Emit chan alertAction =>
      match findTaking chan (waiting s) 0 with
      | Some (n, id, k) =>
          exec id (k alertAction) (setWaiting (delete n (waiting s)) s)
      | None => s
      end
  | ToastGone key =>
      {| toasts := toaster_dismiss key (toasts s);
         now := now s;
         waiting := waiting s;
         forked := forked s;
         channels := channels s;
         puts := puts s;
         log := log s |}
  end.

Definition run (s : System) (inputs : list Input) : System :=
  foldl step s inputs.

(** The keys of the toasts on screen. *)
Definition keys (ts : list Toast) : list string := toast_key <$> ts.

(** The toasts with [key] on screen. *)
Definition toastsWithKey (key : string) (toasts : list Toast) : list Toast :=
  filter (fun t => toast_key t = key) toasts.

(** A handler shows a toast no sooner than 500 ms after it dismissed one,
    and under the key it dismissed. *)
Definition wellTimed (l : list Entry) : Prop :=
  forall (d sh : Entry) (kd ks : string),
    d ∈ l -> sh ∈ l -> by_handler d = by_handler sh ->
    did d = Dismissed kd -> did sh = Shown ks ->
    at_ms d + 500 <= at_ms sh /\ kd = ks.

(** What holds of a waiting handler: one that sleeps has dismissed the key
    of its action, at least 500 ms before it wakes, and has its toast left
    to show; one that takes from its channel has its report left to do. *)
Definition waitingOk (s : System) (w : nat * Waiting) : Prop :=
  match w with
  | (id, Sleeping wake k) =>
      id < forked s
      /\ exists action : ShowAlert,
           k = showAndReport action
           /\ forall e : Entry,
                e ∈ log s -> by_handler e = id ->
                did e = Dismissed (alertKey action) /\ at_ms e + 500 <= wake
  | (id, Taking chan k) =>
      id < forked s /\ exists action : ShowAlert, k = report action chan
  end.

Record Invariant (s : System) : Prop := {
  inv_waiting : Forall (waitingOk s) (waiting s);
  inv_ids : NoDup (fst <$> waiting s);
  inv_forked : forall e : Entry, e ∈ log s -> by_handler e < forked s;
  inv_timed : wellTimed (log s);
}.

End Saga.

(** *** What the runs of the sagas are asked about *)

Section SagaRuns.
Context `{Imports}.

(** The actions dispatched and the strings emitted among [inputs]. *)
Definition dispatched (inputs : list Input) : list ShowAlert :=
  omap (fun i => match i with Dispatch a => Some a | _ => None end) inputs.

Definition emitted (inputs : list Input) : list string :=
  omap (fun i => match i with Emit _ x => Some x | _ => None end) inputs.

(** The channels the waiting handlers take from. *)
Definition takingChans (ws : list (nat * Waiting)) : list Chan :=
  omap (fun w => match snd w with
                 | Taking c _ => Some c
                 | Sleeping _ _ => None
                 end) ws.

(** A channel that exists and that no handler takes from (any more). *)
Definition closed (chan : Chan) (s : System) : Prop :=
  chan < channels s /\ chan ∉ takingChans (waiting s).

(** A waiting handler is the handler of one of the actions [acts], at its
    [delay] or at its [take]. *)
Definition waitingFor (acts : list ShowAlert) (s : System)
    (w : nat * Waiting) : Prop :=
  match snd w with
  | Sleeping _ k =>
      exists a : ShowAlert, a ∈ acts /\ k = showAndReport a
  | Taking chan k =>
      chan < channels s
      /\ exists a : ShowAlert, a ∈ acts /\ k = report a chan
  end.

(** The handlers of the actions [acts] are all accounted for: each waits
    or has put its report, a report names the action and a string of
    [strs], and no two handlers take from one channel. *)
Record Accounted (acts : list ShowAlert) (strs : list string) (s : System)
  : Prop := {
  acc_waiting : Forall (waitingFor acts s) (waiting s);
  acc_chans : NoDup (takingChans (waiting s));
  acc_count : length acts = length (waiting s) + length (puts s);
  acc_puts :
    Forall (fun p => exists (a : ShowAlert) (x : string),
                       a ∈ acts /\ x ∈ strs
                       /\ p = alertsDidShowAlert (domain a) (specific a) x)
           (puts s);
}.

(** A toast is the toast of one of the actions [acts]: what
    [getAlertProps] builds for the action around a channel of the saga,
    under the key of the action. *)
Definition toastOf (acts : list ShowAlert) (s : System) (t : Toast) : Prop :=
  exists (a : ShowAlert) (chan : Chan),
    a ∈ acts /\ chan < channels s
    /\ t = {| toast_props :=
                getAlertProps (domain a) (specific a) chan (props a);
              toast_key := alertKey a |}.

(** The dot, and a string without one. *)
Definition dot : Ascii.ascii := Ascii.ascii_of_nat 46.

Fixpoint dotFree (s : string) : Prop :=
  match s with
  | EmptyString => True
  | String c s' => c <> dot /\ dotFree s'
  end.

(** Two actions whose names differ in where a dot stands: in the domain,
    or in the specific name. *)
Definition dotInDomain (d s1 s2 : string) (p : Props) : ShowAlert :=
  {| domain := d +:+ "." +:+ s1; specific := s2; props := p |}.

Definition dotInSpecific (d s1 s2 : string) (p : Props) : ShowAlert :=
  {| domain := d; specific := s1 +:+ "." +:+ s2; props := p |}.

End SagaRuns.

(** *** A sample instance

    The properties of an alert are given by their JSON text, and the toast
    of an alert holds its name and the channel it emits on. *)
Definition sampleImports : Imports := {|
  Props := string;
  JSON_stringify := fun p => p;
  ToastProps := string * nat;
  getAlertProps := fun domain specific emit _ =>
    (domain +:+ "." +:+ specific, emit);
|}.

#[local] Existing Instance sampleImports.

Definition sampleAlert : ShowAlert :=
  {| domain := "ble"; specific := "missingService"; props := "{}" |}.

(** The same alert twice in a row; the timer of the second handler is
    tried after 499 ms and again after 500 ms. *)
Definition sampleInputs : list Input :=
  [Dispatch sampleAlert; Dispatch sampleAlert; Elapse 499; TimerFires 1;
   Elapse 1; TimerFires 1].

(** Another alert, and an alert whose toast emits twice. *)
Definition otherAlert : ShowAlert :=
  {| domain := "firmware"; specific := "flashProgress"; props := "{}" |}.

Definition sampleReport : list Input :=
  [Dispatch sampleAlert; Emit 0 "dismiss"; Emit 0 "dismiss"].

End Alerts.

(** ** The flash button (src/unnamed/part_000) *)

Module FlashButton.

(** The connection states of the two reducers the button reads, with their
    [Disconnected] members, and the type of [s.firmware.progress]. *)
Class Imports := {
  BootloaderConnectionState : Type;
  #[global] BootloaderConnectionState_eq_dec ::
    EqDecision BootloaderConnectionState;
  BootloaderConnectionState_Disconnected : BootloaderConnectionState;
  BleConnectionState : Type;
  #[global] BleConnectionState_eq_dec :: EqDecision BleConnectionState;
  BleConnectionState_Disconnected : BleConnectionState;
  Progress : Type;
}.

Section Button.
Context `{Imports}.

(** The part of the store the button selects. *)
Record RootState := {
  bootloader_connection : BootloaderConnectionState;
  ble_connection : BleConnectionState;
  firmware_flashing : bool;
  firmware_progress : option Progress;
}.

Inductive TooltipId := TooltipId_Flash | TooltipId_FlashProgress.

(** What the button's callbacks dispatch: [flashFirmware(data)], with
    [None] for [null], and [notificationActions.add(level, message)]. *)
Inductive Action :=
| flashFirmware (data : option (list Byte.byte))
| notifications_add (level message : string).

(** The properties the button passes to [OpenFileButton]; a file is known
    by its name. *)
Record OpenFileButtonProps := {
  fileExtension : string;
  tooltip : TooltipId;
  enabled : bool;
  showProgress : bool;
  progress : option Progress;
  onFile : list Byte.byte -> Action;
  onReject : string -> Action;
  onClick : Action;
}.

Definition FlashButton (s : RootState) : OpenFileButtonProps :=
  let bootloaderConnection := bootloader_connection s in
  let bleConnection := ble_connection s in
  let flashing := firmware_flashing s in
  let progress := firmware_progress s in
  {| fileExtension := ".zip";
     tooltip := if flashing then TooltipId_FlashProgress else TooltipId_Flash;
     enabled :=
       bool_decide
         (bootloaderConnection = BootloaderConnectionState_Disconnected)
       && bool_decide (bleConnection = BleConnectionState_Disconnected);
     showProgress := flashing;
     progress := progress;
     onFile := fun data => flashFirmware (Some data);
     onReject := fun name =>
       notifications_add "error"
         ("'" +:+ name +:+ "' is not a valid firmware file.");
     onClick := flashFirmware None |}.

(** What the user does with an [OpenFileButton]: a click, a file the
    button accepts, a file it rejects. *)
Inductive UserEvent :=
| Click
| FileAccepted (data : list Byte.byte)
| FileRejected (name : string).

(** [OpenFileButton] of [toolbar/OpenFileButton] is not among the sources.
    This one passes every event of an enabled button to the callback for
    it, and none of a disabled button. *)
Definition sampleOpenFileButton (p : OpenFileButtonProps) (ev : UserEvent)
  : list Action :=
  if enabled p then
    match ev with
    | Click => [onClick p]
    | FileAccepted data => [onFile p data]
    | FileRejected name => [onReject p name]
    end
  else [].

Definition isFlashFirmware (a : Action) : bool :=
  match a with
  | flashFirmware _ => true
  | notifications_add _ _ => false
  end.

End Button.

(** A sample instance: the connection states of the specification's
    normalized enumeration. *)
Inductive ConnectionState := Disconnected | Connecting | Connected.

#[global] Instance ConnectionState_eq_dec : EqDecision ConnectionState.
Proof. solve_decision. Defined.

Definition sampleImports : Imports := {|
  BootloaderConnectionState := ConnectionState;
  BootloaderConnectionState_Disconnected := Disconnected;
  BleConnectionState := ConnectionState;
  BleConnectionState_Disconnected := Disconnected;
  Progress := nat;
|}.

#[local] Existing Instance sampleImports.

(** The store with both connections down, and with the BLE connection
    up. *)
Definition bothDisconnected : RootState :=
  {| bootloader_connection := Disconnected;
     ble_connection := Disconnected;
     firmware_flashing := false;
     firmware_progress := None |}.

Definition bleConnected : RootState :=
  {| bootloader_connection := Disconnected;
     ble_connection := Connected;
     firmware_flashing := false;
     firmware_progress := None |}.

End FlashButton.

(** ** The connection coordinator and the flash session

    The code of these two is not among the sources; they are modelled from
    sections 3, 4.2, 4.4 and 4.5 of the specification. *)

Module FlashCore.

(** *** Connection coordinator (section 4.5) *)

(** Modelled from the spec: the two transports (section 4.1), and how an
    attempt to open one ends. *)
Inductive TransportKind := BLE | USB.

Inductive OpenResult :=
| Opened
| OpenFailed_AlreadyConnected
| OpenFailed_ConnectionError.

(** Modelled from the spec: what is asked of the coordinator: to open a
    transport (which the link lets succeed or not), or to close the current
    connection. *)
Inductive Request :=
| Open (kind : TransportKind) (linkUp : bool)
| Close.

(** Modelled from the spec: the ConnectionCoordinator, by the transports
    that are open.  Opening while a transport is open fails with
    AlreadyConnected and changes nothing; otherwise the transport opens, or
    fails with ConnectionError; close is idempotent and releases the
    transport. *)
Definition coordinate (open : list TransportKind) (r : Request)
  : list TransportKind * option OpenResult :=
  match r with
  | Open kind linkUp =>
      match open with
      | _ :: _ => (open, Some OpenFailed_AlreadyConnected)
      | [] =>
          if linkUp then ([kind], Some Opened)
          else ([], Some OpenFailed_ConnectionError)
      end
  | Close => ([], None)
  end.

Fixpoint coordinateAll (open : list TransportKind) (rs : list Request)
  : list TransportKind :=
  match rs with
  | [] => open
  | r :: rs' => coordinateAll (fst (coordinate open r)) rs'
  end.

(** *** Firmware package (sections 3 and 4.2) *)

(** Modelled from the spec: the hub types (the enum of hubDeviceId), by
    the names of the [HubType] enum the sources use. *)
Inductive HubType := MoveHub | CityHub | TechnicHub | PrimeHub | EssentialHub.

#[global] Instance HubType_eq_dec : EqDecision HubType.
Proof. solve_decision. Defined.

(** Modelled from the spec: FirmwareMetadata and FirmwarePackage of the
    data model (section 3); the optional mainProgramSlot is left out. *)
Record FirmwareMetadata := {
  hubDeviceId : HubType;
  firmwareVersion : string;
  imageSize : nat;
  imageChecksum : N;
}.

Record FirmwarePackage := {
  metadata : FirmwareMetadata;
  imageBytes : list Byte.byte;
  licenseText : string;
}.

(** Modelled from the spec: hubTypeMatches of FirmwarePackage, the pure
    comparison of the package's declared hub type with the connected one. *)
Definition hubTypeMatches (pkg : FirmwarePackage) (connectedHubType : HubType)
  : bool :=
  bool_decide (hubDeviceId (metadata pkg) = connectedHubType).

(** *** Chunks (section 3) *)

(** Modelled from the spec: a Chunk of the data model. *)
Record Chunk := {
  offset : nat;
  payload : list Byte.byte;
}.

(** Modelled from the spec: the chunks of an image, derived from the image
    bytes: pieces of the nominal chunk size cut off one after the other,
    each with the offset it starts at; the last may be shorter.  A chunk
    size of zero gives no chunks. *)
Equations? chunksFrom (size : nat) (offset : nat) (bytes : list Byte.byte)
  : list Chunk by wf (length bytes) lt :=
chunksFrom 0 _ _ := [];
chunksFrom (S n) _ [] := [];
chunksFrom (S n) offset (b :: bytes) :=
  {| offset := offset; payload := take (S n) (b :: bytes) |}
  :: chunksFrom (S n) (offset + S n) (drop (S n) (b :: bytes)).
Proof. simpl. rewrite length_drop. lia. Qed.

Definition chunks (size : nat) (image : list Byte.byte) : list Chunk :=
  chunksFrom size 0 image.

(** The chunks [cs] lie end to end from [from] to [to]: each starts where
    the one before it ends. *)
Fixpoint tiles (from : nat) (cs : list Chunk) (to : nat) : Prop :=
  match cs with
  | [] => from = to
  | c :: cs' =>
      offset c = from /\ tiles (from + length (payload c)) cs' to
  end.

(** *** Flash session (section 4.4) *)

(** Modelled from the spec: the error kinds of section 7. *)
Inductive ErrorKind :=
| ConnectionError
| ProtocolError
| HubTypeMismatch
| ChecksumMismatch
| EraseError
| TransferError
| VerificationError
| CancellationRefused.

(** Modelled from the spec: the states of the FlashSession. *)
Inductive State :=
| Idle
| Connecting
| Handshaking
| ValidatingPackage
| Erasing
| Programming
| Verifying
| Rebooting
| Completed
| Failed (reason : ErrorKind)
| Cancelled.

(** Modelled from the spec: the commands of the BootloaderProtocol
    (section 4.3). *)
Inductive Command :=
| GetInfo
| EraseFlash
| WriteChunk (offset : nat) (payload : list Byte.byte)
| GetChecksum
| StartApplication.

(** Modelled from the spec: what reaches the session: the caller's request
    to flash, the outcome of opening the transport, a response to the
    command in flight (the information of GetInfo, an acknowledgement, a
    checksum), a transport failure (a failed or timed-out write), a
    malformed or out-of-sequence response, the link closing. *)
Inductive Event :=
| FlashRequested
| TransportOpened
| TransportOpenFailed
| Info (hubType : HubType) (maxPacketSize : nat)
| Ack
| Checksum (checksum : N)
| TransportFailed
| Malformed
| LinkClosed.

(** Modelled from the spec: what a session does, in order: the states it
    enters and the commands it puts on the wire. *)
Inductive Output :=
| Enter (s : State)
| Send (c : Command).

(** Modelled from the spec: the bounds on the attempts at opening the
    transport and at writing one chunk.  The specification suggests 3 for
    both and leaves them to the configuration. *)
Record Bounds := {
  connectAttempts : nat;
  chunkAttempts : nat;
}.

(** Modelled from the spec: a session: its state, the attempts made at
    what it is doing (the open, the erase, the chunk), and the chunks that
    are not acknowledged yet. *)
Record Session := {
  state : State;
  attempt : nat;
  remaining : list Chunk;
}.

Definition idle : Session :=
  {| state := Idle; attempt := 0; remaining := [] |}.

Definition enter (s : State) : Session * list Output :=
  ({| state := s; attempt := 0; remaining := [] |}, [Enter s]).

Definition fail (reason : ErrorKind) : Session * list Output :=
  enter (Failed reason).

(** With the chunks [cs] left to write: the first attempt at the first of
    them, or, with none left, on to the verification. *)
Definition writeNext (cs : list Chunk) : Session * list Output :=
  match cs with
  | c :: _ =>
      ({| state := Programming; attempt := 1; remaining := cs |},
       [Send (WriteChunk (offset c) (payload c))])
  | [] =>
      ({| state := Verifying; attempt := 1; remaining := [] |},
       [Enter Verifying; Send GetChecksum])
  end.

(** Modelled from the spec: the transitions of the FlashSession (section
    4.4).  Cancellation (section 5) and the progress stream are not part of
    this model.  The package is validated as soon as the hub's information
    is there, with no event in between, and the hub type is the only thing
    looked at.  What the specification leaves open is taken thus: a
    response the state does not await is out of sequence and fails the
    session with ProtocolError; a link that closes while a response is
    awaited fails it with ConnectionError. *)
Definition step (b : Bounds) (pkg : FirmwarePackage) (s : Session) (e : Event)
  : Session * list Output :=
  match state s with
  | Idle =>
      match e with
      | FlashRequested =>
          ({| state := Connecting; attempt := 1; remaining := [] |},
           [Enter Connecting])
      | _ => (s, [])
      end
  | Connecting =>
      match e with
      | TransportOpened =>
          ({| state := Handshaking; attempt := 1; remaining := [] |},
           [Enter Handshaking; Send GetInfo])
      | TransportOpenFailed =>
          if bool_decide (attempt s < connectAttempts b)
          then ({| state := Connecting; attempt := S (attempt s);
                   remaining := [] |}, [])
          else fail ConnectionError
      | _ => fail ProtocolError
      end
  | Handshaking =>
      match e with
      | Info hubType maxPacketSize =>
          if hubTypeMatches pkg hubType
          then ({| state := Erasing; attempt := 1;
                   remaining := chunks maxPacketSize (imageBytes pkg) |},
                [Enter ValidatingPackage; Enter Erasing; Send EraseFlash])
          else ({| state := Failed HubTypeMismatch; attempt := 0;
                   remaining := [] |},
                [Enter ValidatingPackage; Enter (Failed HubTypeMismatch)])
      | LinkClosed => fail ConnectionError
      | _ => fail ProtocolError
      end
  | ValidatingPackage => (s, [])
  | Erasing =>
      match e with
      | Ack =>
          let '(s', out) := writeNext (remaining s) in
          (s', Enter Programming :: out)
      | TransportFailed =>
          if bool_decide (attempt s < 2)
          then ({| state := Erasing; attempt := S (attempt s);
                   remaining := remaining s |}, [Send EraseFlash])
          else fail EraseError
      | LinkClosed => fail ConnectionError
      | _ => fail ProtocolError
      end
  | Programming =>
      match e with
      | Ack => writeNext (tail (remaining s))
      | TransportFailed =>
          match remaining s with
          | c :: _ =>
              if bool_decide (attempt s < chunkAttempts b)
              then ({| state := Programming; attempt := S (attempt s);
                       remaining := remaining s |},
                    [Send (WriteChunk (offset c) (payload c))])
              else fail TransferError
          | [] => fail TransferError
          end
      | LinkClosed => fail ConnectionError
      | _ => fail ProtocolError
      end
  | Verifying =>
      match e with
      | Checksum c =>
          if bool_decide (c = imageChecksum (metadata pkg))
          then ({| state := Rebooting; attempt := 1; remaining := [] |},
                [Enter Rebooting; Send StartApplication])
          else fail VerificationError
      | LinkClosed => fail ConnectionError
      | _ => fail ProtocolError
      end
  | Rebooting =>
      match e with
      | LinkClosed | Ack => enter Completed
      | _ => fail ProtocolError
      end
  | Completed | Failed _ | Cancelled => (s, [])
  end.

Fixpoint run (b : Bounds) (pkg : FirmwarePackage) (s : Session)
    (evs : list Event) : Session * list Output :=
  match evs with
  | [] => (s, [])
  | e :: evs' =>
      let '(s1, out1) := step b pkg s e in
      let '(s2, out2) := run b pkg s1 evs' in
      (s2, out1 ++ out2)
  end.

(** The commands among the outputs, and those of them that write to the
    flash memory. *)
Definition commands (out : list Output) : list Command :=
  omap (fun o => match o with Send c => Some c | Enter _ => None end) out.

Definition touchesFlash (c : Command) : bool :=
  match c with
  | EraseFlash | WriteChunk _ _ => true
  | _ => false
  end.

(** The session that awaits the checksum. *)
Definition verifying : Session :=
  {| state := Verifying; attempt := 1; remaining := [] |}.

(** The states in which no command has written to the flash memory yet:
    those before the package is validated, and a failure. *)
Definition untouched (s : Session) : Prop :=
  match state s with
  | Idle | Connecting | Handshaking | Failed _ => True
  | _ => False
  end.

(** No command among [out] writes to the flash memory. *)
Definition harmless (out : list Output) : Prop :=
  Forall (fun c => touchesFlash c = false) (commands out).

(** The events of a session in which nothing goes wrong: the transport
    opens, the hub reports [hubType] and the packet size [size], the erase
    and each chunk are acknowledged, the checksum is the declared one, and
    the link closes after the reboot command. *)
Definition smooth (pkg : FirmwarePackage) (hubType : HubType) (size : nat)
  : list Event :=
  [FlashRequested; TransportOpened; Info hubType size; Ack]
  ++ replicate (length (chunks size (imageBytes pkg))) Ack
  ++ [Checksum (imageChecksum (metadata pkg)); LinkClosed].

(** The hub types the connected hubs report in [evs]. *)
Definition reportedHubTypes (evs : list Event) : list HubType :=
  omap (fun e => match e with Info h _ => Some h | _ => None end) evs.

(** *** Samples

    A package for the Technic hub with an image of 1024 zero bytes, the
    bounds the specification suggests, and a session with a City hub that
    goes on acknowledging. *)
Definition samplePackage : FirmwarePackage :=
  {| metadata := {| hubDeviceId := TechnicHub;
                    firmwareVersion := "3.2.0";
                    imageSize := 1024;
                    imageChecksum := 0%N |};
     imageBytes := replicate 1024 Byte.x00;
     licenseText := "MIT" |}.

Definition sampleBounds : Bounds :=
  {| connectAttempts := 3; chunkAttempts := 3 |}.

Definition cityHubSession : list Event :=
  [FlashRequested; TransportOpened; Info CityHub 256; Ack; Ack].

(** The same hub reporting a packet size of zero. *)
Definition cityHubZero : list Event :=
  [FlashRequested; TransportOpened; Info CityHub 0].

End FlashCore.

(** * Theorems *)

(** ** The install dialog *)

Section DialogFacts.
Import InstallPybricksDialog.
Context `{Imports}.

Lemma getHubTypeFromMetadata_undefined (fallback : Hub) :
  getHubTypeFromMetadata None fallback = fallback.
Proof. reflexivity. Qed.

Lemma getHubTypeFromMetadata_default (md : FirmwareMetadata) (fallback : Hub) :
  device_id md ∉ knownHubTypes ->
  getHubTypeFromMetadata (Some md) fallback = fallback.
Proof.
  unfold getHubTypeFromMetadata, knownHubTypes. rewrite !not_elem_of_cons.
  intros (? & ? & ? & ? & ? & _). simpl.
  repeat case_decide; congruence.
Qed.

Lemma getHubTypeFromMetadata_unrecognized
    (m : option FirmwareMetadata) (fallback : Hub) :
  unrecognized m -> getHubTypeFromMetadata m fallback = fallback.
Proof.
  destruct m as [md|]; simpl; intros Hm.
  - by apply getHubTypeFromMetadata_default.
  - apply getHubTypeFromMetadata_undefined.
Qed.

(** The final button dispatches the accept action built from the current
    render, whatever the state holds. *)
Lemma handle_ClickFinal (h : Hooks) (st : State) :
  isOpen h = true -> step st = lastStep ->
  handle h st ClickFinal = (st, [finalButton_onClick h st]).
Proof.
  intros _ Hs. unfold handle. by rewrite bool_decide_eq_true_2.
Qed.

(** An event dispatches at most the accept action of the current state. *)
Lemma handle_accepted (h : Hooks) (st : State) (ev : Event) :
  acceptedHubNames (snd (handle h st ev)) = []
  \/ acceptedHubNames (snd (handle h st ev)) = [hubName st].
Proof.
  unfold handle.
  destruct ev; simpl; repeat case_match; simpl; auto.
Qed.

(** The hub name after an event is the one before it, or the one typed. *)
Lemma handle_hubName (h : Hooks) (st : State) (ev : Event) :
  hubName (fst (handle h st ev)) = hubName st
  \/ ev = HubNameInput (hubName (fst (handle h st ev))).
Proof.
  unfold handle.
  destruct ev; simpl; repeat case_match; simpl; auto.
Qed.

Lemma acceptedHubNames_app (a b : list Action) :
  acceptedHubNames (a ++ b) = acceptedHubNames a ++ acceptedHubNames b.
Proof. apply omap_app. Qed.

(** Where the accepted hub names come from: the state the run starts in,
    or the hub name input. *)
Lemma run_accepted (evs : list (Hooks * Event)) (st : State) (n : string) :
  n ∈ acceptedHubNames (snd (run st evs)) ->
  n = hubName st \/ n ∈ typedHubNames evs.
Proof.
  revert st. induction evs as [|[h ev] evs IH]; intros st; simpl.
  - intros Hin. by apply elem_of_nil in Hin.
  - destruct (handle h st ev) as [st1 out1] eqn:Hh.
    destruct (run st1 evs) as [st2 out2] eqn:Hr. simpl.
    rewrite acceptedHubNames_app, elem_of_app. intros [Hin|Hin].
    + left. destruct (handle_accepted h st ev) as [E|E];
        rewrite Hh in E; simpl in E; rewrite E in Hin.
      * by apply elem_of_nil in Hin.
      * by apply list_elem_of_singleton in Hin.
    + specialize (IH st1). rewrite Hr in IH. simpl in IH.
      destruct (IH Hin) as [->|Ht].
      * destruct (handle_hubName h st ev) as [E|E];
          rewrite Hh in E; simpl in E.
        -- by left.
        -- right. unfold typedHubNames. simpl. rewrite E. simpl.
           apply elem_of_cons. by left.
      * right. unfold typedHubNames in *. simpl.
        destruct ev; simpl; try done. apply elem_of_cons. by right.
Qed.

(** Typing a name on the options step and pressing the final button
    dispatches that name. *)
Lemma typeNameAndFlash_dispatched (h : Hooks) (name : string) :
  isOpen h = true ->
  AcceptLicensePanel_selectedFirmwareData h <> None ->
  dispatched (typeNameAndFlash h name) =
    [firmwareInstallPybricksDialogAccept
       (hubBootloaderType (selectedHubType h))
       (default [] (firmwareZip <$> selectedFirmwareData h))
       None name].
Proof.
  intros _ Hfw. unfold dispatched, typeNameAndFlash, run, handle.
  unfold AcceptLicensePanel_checkbox_disabled.
  rewrite (bool_decide_eq_false_2 _ Hfw). reflexivity.
Qed.

(** C10. [getHubTypeFromMetadata] returns the caller's fallback for
    undefined metadata and for every metadata whose device id is none of
    MoveHub, CityHub, TechnicHub, PrimeHub, EssentialHub; it has no failing
    path.  In the dialog the fallback is the hub of the hub picker, so a
    custom firmware with such metadata is flashed to the picked hub: the
    selected hub type is the picked one, and the accept action carries the
    picked hub's bootloader type. *)
Theorem unknown_device_id_selects_fallback (m : option FirmwareMetadata) :
  unrecognized m ->
  (forall fallback : Hub, getHubTypeFromMetadata m fallback = fallback)
  /\ (forall (h : Hooks) (st : State),
        isOpen h = true -> step st = lastStep ->
        isCustomFirmwareRequested h = true ->
        metadata <$> customFirmwareData h = m ->
        selectedHubType h = hubType h
        /\ handle h st ClickFinal =
             (st, [firmwareInstallPybricksDialogAccept
                     (hubBootloaderType (hubType h))
                     (default [] (firmwareZip <$> customFirmwareData h))
                     (path <$> selectedIncludeFile st)
                     (hubName st)])).
Proof.
  intros Hm. split.
  - intros fallback. by apply getHubTypeFromMetadata_unrecognized.
  - intros h st Ho Hs Hc Hmd.
    assert (Hsel : selectedHubType h = hubType h).
    { unfold selectedHubType. rewrite Hc, Hmd.
      by apply getHubTypeFromMetadata_unrecognized. }
    split; [exact Hsel|].
    rewrite handle_ClickFinal by done.
    unfold finalButton_onClick, selectedFirmwareData.
    by rewrite Hsel, Hc.
Qed.

(** C8, as the code has it.  The hub name of the accept action is the
    hub name state of the dialog: a name typed into the input of the options
    step is dispatched by the final button as it is, for every name and
    every [validateHubName].  The validity of the name only selects the
    intent of the input (and the error icon); and no accepted hub name comes
    from anywhere but the initial empty string and the input. *)
Theorem accept_carries_hub_name_unchecked (h : Hooks) (name : string) :
  isOpen h = true ->
  AcceptLicensePanel_selectedFirmwareData h <> None ->
  acceptedHubNames (dispatched (typeNameAndFlash h name)) = [name]
  /\ (forall st : State,
        ConfigureOptionsPanel_intent st =
          if validateHubName (hubName st) then Intent_NONE
          else Intent_DANGER)
  /\ (forall (evs : list (Hooks * Event)) (n : string),
        n ∈ acceptedHubNames (dispatched evs) ->
        n = "" \/ n ∈ typedHubNames evs).
Proof.
  intros Ho Hfw. split; [|split].
  - by rewrite typeNameAndFlash_dispatched.
  - reflexivity.
  - intros evs n Hin. by apply (run_accepted evs initialState).
Qed.

End DialogFacts.

Section DialogExamples.
Import InstallPybricksDialog.
#[local] Existing Instance sampleImports.

(** A firmware with device id 0xA0, dropped while the City hub is picked:
    the City hub's bootloader is the target. *)
Lemma unknown_device_id_selects_fallback_witness :
  unrecognized (Some (metadata unknownFirmware))
  /\ getHubTypeFromMetadata (Some (metadata unknownFirmware)) Technic
     = Technic
  /\ handle customHooks (setStep 3 initialState) ClickFinal =
       (setStep 3 initialState,
        [firmwareInstallPybricksDialogAccept
           ble_lwp3_bootloader [Byte.x50; Byte.x4b] None ""]).
Proof.
  assert (Hu : unrecognized (Some (metadata unknownFirmware))).
  { simpl. unfold knownHubTypes. rewrite !not_elem_of_cons.
    repeat split; try discriminate. apply not_elem_of_nil. }
  destruct (unknown_device_id_selects_fallback _ Hu) as [Hf Hd].
  split; [exact Hu|]. split; [apply Hf|].
  apply (Hd customHooks (setStep 3 initialState)); reflexivity.
Defined.

(** C8 fails as it is stated: with the City hub picked and its firmware
    loaded, typing a name of 51 characters and pressing the final button
    dispatches the accept action with that name, which the validator
    rejects. *)
Lemma accept_dispatched_with_invalid_hub_name :
  acceptedHubNames
    (dispatched
       (typeNameAndFlash sampleHooks
          "A hub name that is far too long for any hub to hold"))
  = ["A hub name that is far too long for any hub to hold"]
  /\ validateHubName "A hub name that is far too long for any hub to hold"
     = false.
Proof. split; reflexivity. Qed.

Lemma accept_carries_hub_name_unchecked_witness :
  isOpen sampleHooks = true
  /\ AcceptLicensePanel_selectedFirmwareData sampleHooks <> None
  /\ acceptedHubNames
       (dispatched
          (typeNameAndFlash sampleHooks
             "A hub name that is far too long for any hub to hold"))
     = ["A hub name that is far too long for any hub to hold"].
Proof.
  assert (Hfw : AcceptLicensePanel_selectedFirmwareData sampleHooks <> None)
    by discriminate.
  split; [reflexivity|]. split; [exact Hfw|].
  apply (accept_carries_hub_name_unchecked sampleHooks
           "A hub name that is far too long for any hub to hold"
           eq_refl Hfw).
Defined.

End DialogExamples.

(** ** The alerts saga *)

Section AlertsFacts.
Import Alerts.
Context `{Imports}.

Lemma toaster_dismiss_keys (key : string) (ts : list Toast) :
  keys (toaster_dismiss key ts) = filter (fun k => k <> key) (keys ts).
Proof.
  unfold keys, toaster_dismiss. induction ts as [|t ts IH]; [done|].
  rewrite fmap_cons, !filter_cons.
  destruct (decide (toast_key t <> key)); [rewrite fmap_cons|]; by rewrite IH.
Qed.

Lemma toaster_isNewToastKey_spec (key : string) (ts : list Toast) :
  toaster_isNewToastKey key ts = true <-> key ∉ keys ts.
Proof.
  unfold toaster_isNewToastKey, keys. induction ts as [|t ts IH]; simpl.
  - split; [intros _; apply not_elem_of_nil | done].
  - rewrite andb_true_iff, IH, not_elem_of_cons, negb_true_iff,
      bool_decide_eq_false.
    split; (intros [Hne Hnin]; split; [congruence|done]).
Qed.

Lemma toaster_show_keys (p : ToastProps) (key : string) (ts : list Toast) :
  keys (toaster_show p key ts)
  = if toaster_isNewToastKey key ts then key :: keys ts else keys ts.
Proof.
  unfold toaster_show. destruct (toaster_isNewToastKey key ts); [done|].
  unfold keys. rewrite <- list_fmap_compose. apply list_fmap_ext.
  intros i t _. simpl. by case_bool_decide.
Qed.

Lemma toaster_dismiss_NoDup (key : string) (ts : list Toast) :
  NoDup (keys ts) -> NoDup (keys (toaster_dismiss key ts)).
Proof. rewrite toaster_dismiss_keys. apply NoDup_filter. Qed.

Lemma toaster_show_NoDup (p : ToastProps) (key : string) (ts : list Toast) :
  NoDup (keys ts) -> NoDup (keys (toaster_show p key ts)).
Proof.
  rewrite toaster_show_keys.
  destruct (toaster_isNewToastKey key ts) eqn:Hnew; [|done].
  intros Hnd. apply NoDup_cons. split; [|done].
  by apply toaster_isNewToastKey_spec.
Qed.

(** No saga, run from any point, puts two toasts with one key on screen. *)
Lemma exec_NoDup (saga : Saga) (id : nat) (s : System) :
  NoDup (keys (toasts s)) -> NoDup (keys (toasts (exec id saga s))).
Proof.
  revert s.
  induction saga as [|k IH|key k IH|ms k IH|sub key k IH|c k IH|a k IH|c k IH];
    intros s Hnd; simpl; auto.
  - apply IH. simpl. by apply toaster_dismiss_NoDup.
  - apply IH. simpl. by apply toaster_show_NoDup.
Qed.

Lemma step_NoDup (s : System) (i : Input) :
  NoDup (keys (toasts s)) -> NoDup (keys (toasts (step s i))).
Proof.
  intros Hnd. destruct i as [a|ms|n|c str|key]; simpl.
  - by apply exec_NoDup.
  - done.
  - destruct (waiting s !! n) as [[id [wake k|c k]]|]; try done.
    case_bool_decide; [|done]. by apply exec_NoDup.
  - destruct (findTaking c (waiting s) 0) as [[[n id] k]|]; [|done].
    by apply exec_NoDup.
  - by apply toaster_dismiss_NoDup.
Qed.

Lemma run_NoDup (inputs : list Input) (s : System) :
  NoDup (keys (toasts s)) -> NoDup (keys (toasts (run s inputs))).
Proof.
  revert s. induction inputs as [|i inputs IH]; intros s Hnd; [done|].
  simpl. apply IH. by apply step_NoDup.
Qed.

Lemma toastsWithKey_absent (key : string) (ts : list Toast) :
  key ∉ keys ts -> toastsWithKey key ts = [].
Proof.
  unfold toastsWithKey, keys. induction ts as [|t ts IH]; [done|].
  rewrite fmap_cons, not_elem_of_cons, filter_cons. intros [Hne Hnin].
  destruct (decide (toast_key t = key)); [congruence|by apply IH].
Qed.

Lemma toastsWithKey_NoDup (key : string) (ts : list Toast) :
  NoDup (keys ts) -> length (toastsWithKey key ts) <= 1.
Proof.
  induction ts as [|t ts IH]; [simpl; lia|].
  unfold keys. rewrite fmap_cons, NoDup_cons. intros [Hnin Hnd].
  unfold toastsWithKey. rewrite filter_cons.
  destruct (decide (toast_key t = key)) as [<-|]; [|by apply IH].
  fold (toastsWithKey (toast_key t) ts).
  rewrite toastsWithKey_absent by done. simpl. lia.
Qed.

Lemma existing_iff (key : string) (ts : list Toast) :
  0 < length (filter (fun t => toast_key t = key) ts) <-> key ∈ keys ts.
Proof.
  unfold keys. induction ts as [|t ts IH].
  - simpl. split; [lia|]. intros Hin. by apply elem_of_nil in Hin.
  - rewrite filter_cons, fmap_cons, elem_of_cons.
    destruct (decide (toast_key t = key)) as [E|E]; simpl.
    + split; [by left|lia].
    + rewrite IH. split; [by right|]. by intros [Heq|Hin]; [congruence|].
Qed.

Lemma append_String (c : Ascii.ascii) (a b : string) :
  String c a +:+ b = String c (a +:+ b).
Proof. reflexivity. Qed.

Lemma append_EmptyString (b : string) : "" +:+ b = b.
Proof. reflexivity. Qed.

Lemma string_append_assoc (a b c : string) :
  (a +:+ b) +:+ c = a +:+ b +:+ c.
Proof.
  induction a as [|ch a IH]; [done|]. rewrite !append_String. by f_equal.
Qed.

(** Up to its first dot, a string is read in one way. *)
Lemma append_dot_inj (a b r r' : string) :
  dotFree a -> dotFree b ->
  a +:+ "." +:+ r = b +:+ "." +:+ r' -> a = b /\ r = r'.
Proof.
  revert b. induction a as [|c a IH]; intros [|c' b];
    rewrite ?append_String, ?append_EmptyString; simpl.
  - intros _ _ E. by injection E.
  - intros _ [Hc _] E. injection E as E1 E2. destruct (Hc (eq_sym E1)).
  - intros [Hc _] _ E. injection E as E1 E2. destruct (Hc E1).
  - intros [_ Ha] [_ Hb] E. injection E as -> E.
    by destruct (IH b Ha Hb E) as [-> ->].
Qed.

Lemma toastsWithKey_dismiss (key key' : string) (ts : list Toast) :
  key <> key' ->
  toastsWithKey key (toaster_dismiss key' ts) = toastsWithKey key ts.
Proof.
  intros Hne. unfold toastsWithKey, toaster_dismiss.
  induction ts as [|t ts IH]; [done|]. rewrite !filter_cons.
  destruct (decide (toast_key t <> key')) as [Hk|Hk].
  - rewrite filter_cons. destruct (decide (toast_key t = key)); by rewrite IH.
  - destruct (decide (toast_key t = key')) as [E|E]; [|done].
    rewrite decide_False by congruence. done.
Qed.

(** Handling an action whose key is on screen: the toast is dismissed and
    the handler sleeps for 500 ms with its toast left to show. *)
Lemma step_Dispatch_existing (s : System) (action : ShowAlert) :
  alertKey action ∈ keys (toasts s) ->
  step s (Dispatch action) =
    {| toasts := toaster_dismiss (alertKey action) (toasts s);
       now := now s;
       waiting := waiting s ++
         [(forked s, Sleeping (now s + 500) (showAndReport action))];
       forked := S (forked s);
       channels := channels s;
       puts := puts s;
       log := log s ++ [{| at_ms := now s; by_handler := forked s;
                           did := Dismissed (alertKey action) |}] |}.
Proof.
  intros Hin. apply existing_iff in Hin. simpl.
  unfold toaster_getToasts. by rewrite bool_decide_eq_true_2.
Qed.

(** Handling an action whose key is not on screen: the toast is shown at
    once, in front of the others, and the handler takes from its channel. *)
Lemma step_Dispatch_fresh (s : System) (action : ShowAlert) :
  alertKey action ∉ keys (toasts s) ->
  step s (Dispatch action) =
    {| toasts :=
         {| toast_props :=
              getAlertProps (domain action) (specific action) (channels s)
                (props action);
            toast_key := alertKey action |} :: toasts s;
       now := now s;
       waiting := waiting s ++
         [(forked s, Taking (channels s) (report action (channels s)))];
       forked := S (forked s);
       channels := S (channels s);
       puts := puts s;
       log := log s ++ [{| at_ms := now s; by_handler := forked s;
                           did := Shown (alertKey action) |}] |}.
Proof.
  intros Hnin. simpl. unfold toaster_getToasts.
  rewrite bool_decide_eq_false_2 by (by rewrite existing_iff).
  simpl. unfold toaster_show.
  by rewrite (proj2 (toaster_isNewToastKey_spec _ _) Hnin).
Qed.

(** The handler of an action leaves the toasts with another key alone. *)
Lemma step_Dispatch_other_key (s : System) (action : ShowAlert)
    (key : string) :
  key <> alertKey action ->
  toastsWithKey key (toasts (step s (Dispatch action)))
  = toastsWithKey key (toasts s).
Proof.
  intros Hne.
  destruct (decide (alertKey action ∈ keys (toasts s))) as [Hin|Hnin].
  - rewrite step_Dispatch_existing by done. simpl.
    by apply toastsWithKey_dismiss.
  - rewrite step_Dispatch_fresh by done. simpl.
    unfold toastsWithKey. rewrite filter_cons. simpl.
    rewrite decide_False; [done|]. intros E. exact (Hne (eq_sym E)).
Qed.

Lemma waitingOk_ext (s s' : System) (w : nat * Waiting) :
  forked s' = forked s -> log s' = log s ->
  waitingOk s w -> waitingOk s' w.
Proof.
  intros Hf Hl. destruct w as [id [wake k|c k]]; simpl;
    rewrite Hf, ?Hl; done.
Qed.

(** A waiting handler stays as it is when another handler acts. *)
Lemma waitingOk_other (s s' : System) (w : nat * Waiting) (e : Entry) :
  forked s <= forked s' -> log s' = log s ++ [e] ->
  by_handler e <> fst w ->
  waitingOk s w -> waitingOk s' w.
Proof.
  intros Hf Hl Hne. destruct w as [id [wake k|c k]]; simpl in *.
  - intros [Hid (a & -> & Hlog)]. split; [lia|]. exists a. split; [done|].
    intros e'. rewrite Hl, elem_of_app, list_elem_of_singleton.
    intros [Hin| ->] Hby; [by apply Hlog|done].
  - intros [Hid Hk]. split; [lia|done].
Qed.

Lemma waiting_ids_lt (s : System) :
  Forall (waitingOk s) (waiting s) ->
  forall id : nat, id ∈ fst <$> waiting s -> id < forked s.
Proof.
  intros Hw id Hin. apply list_elem_of_fmap in Hin as ([id' w] & -> & Hin).
  rewrite Forall_forall in Hw. specialize (Hw _ Hin).
  destruct w; simpl in *; tauto.
Qed.

Lemma Invariant_start : Invariant start.
Proof.
  split; simpl.
  - constructor.
  - constructor.
  - intros e Hin. by apply elem_of_nil in Hin.
  - intros d sh kd ks Hin. by apply elem_of_nil in Hin.
Qed.

(** The waiting handlers stay as they are when a handler that is not
    among them acts. *)
Lemma waiting_preserved (s s' : System) (ws : list (nat * Waiting))
    (e : Entry) :
  forked s <= forked s' -> log s' = log s ++ [e] ->
  by_handler e ∉ fst <$> ws ->
  Forall (waitingOk s) ws -> Forall (waitingOk s') ws.
Proof.
  intros Hf Hl Hnin. rewrite !Forall_forall. intros Hok w Hin.
  apply (waitingOk_other s s' w e Hf Hl); [|by apply Hok].
  intros E. apply Hnin. rewrite E. apply list_elem_of_fmap. by exists w.
Qed.

Lemma wellTimed_Dismissed (l : list Entry) (e : Entry) (key : string) :
  wellTimed l -> did e = Dismissed key ->
  (forall e' : Entry, e' ∈ l -> by_handler e' <> by_handler e) ->
  wellTimed (l ++ [e]).
Proof.
  intros Ht He Hnew d sh kd ks.
  rewrite !elem_of_app, !list_elem_of_singleton.
  intros [Hd| ->] [Hsh| ->] Hby Hdd Hds.
  - by apply (Ht d sh).
  - congruence.
  - exfalso. by apply (Hnew sh).
  - congruence.
Qed.

Lemma wellTimed_Shown (l : list Entry) (e : Entry) (key : string) :
  wellTimed l -> did e = Shown key ->
  (forall (d : Entry) (kd : string),
     d ∈ l -> by_handler d = by_handler e -> did d = Dismissed kd ->
     at_ms d + 500 <= at_ms e /\ kd = key) ->
  wellTimed (l ++ [e]).
Proof.
  intros Ht He Hold d sh kd ks.
  rewrite !elem_of_app, !list_elem_of_singleton.
  intros [Hd| ->] [Hsh| ->] Hby Hdd Hds.
  - by apply (Ht d sh).
  - destruct (Hold d kd Hd Hby Hdd) as [Hle ->]. split; [done|congruence].
  - congruence.
  - congruence.
Qed.

Lemma Invariant_Dispatch (s : System) (action : ShowAlert) :
  Invariant s -> Invariant (step s (Dispatch action)).
Proof.
  intros [Hw Hids Hf Ht].
  assert (Hfresh : forked s ∉ fst <$> waiting s).
  { intros Hin. apply (waiting_ids_lt s Hw) in Hin. lia. }
  assert (Hnew : forall e : Entry, e ∈ log s -> by_handler e <> forked s).
  { intros e Hin. specialize (Hf e Hin). lia. }
  destruct (decide (alertKey action ∈ keys (toasts s))) as [Hin|Hnin].
  - rewrite step_Dispatch_existing by done. split; simpl.
    + apply Forall_app. split.
      * eapply (waiting_preserved s);
          [simpl; lia|simpl; reflexivity|exact Hfresh|exact Hw].
      * apply Forall_singleton. simpl. split; [lia|].
        exists action. split; [done|]. intros e.
        rewrite elem_of_app, list_elem_of_singleton.
        intros [He| ->] Hby; [by destruct (Hnew e He)|].
        simpl. split; [done|lia].
    + rewrite fmap_app. simpl. apply NoDup_app. split; [done|]. split.
      * intros id Hid. rewrite list_elem_of_singleton. intros ->. done.
      * apply NoDup_singleton.
    + intros e. rewrite elem_of_app, list_elem_of_singleton.
      intros [He| ->]; [specialize (Hf e He); lia|simpl; lia].
    + eapply wellTimed_Dismissed; [done|done|]. simpl. exact Hnew.
  - rewrite step_Dispatch_fresh by done. split; simpl.
    + apply Forall_app. split.
      * eapply (waiting_preserved s);
          [simpl; lia|simpl; reflexivity|exact Hfresh|exact Hw].
      * apply Forall_singleton. simpl. split; [lia|]. by exists action.
    + rewrite fmap_app. simpl. apply NoDup_app. split; [done|]. split.
      * intros id Hid. rewrite list_elem_of_singleton. intros ->. done.
      * apply NoDup_singleton.
    + intros e. rewrite elem_of_app, list_elem_of_singleton.
      intros [He| ->]; [specialize (Hf e He); lia|simpl; lia].
    + eapply wellTimed_Shown; [done|done|]. simpl.
      intros d kd Hd Hby. by destruct (Hnew d Hd).
Qed.

(** Taking the [n]-th waiting handler out leaves the others, with their
    numbers still distinct and different from its own. *)
Lemma waiting_delete (ws : list (nat * Waiting)) (n id : nat) (w : Waiting) :
  ws !! n = Some (id, w) -> NoDup (fst <$> ws) ->
  NoDup (fst <$> delete n ws) /\ id ∉ fst <$> delete n ws.
Proof.
  intros Hn Hnd. apply delete_Permutation in Hn.
  rewrite Hn, fmap_cons, NoDup_cons in Hnd. simpl in Hnd. tauto.
Qed.

Lemma Invariant_TimerFires (s : System) (n : nat) :
  Invariant s -> Invariant (step s (TimerFires n)).
Proof.
  intros Hinv. simpl.
  destruct (waiting s !! n) as [[id [wake k|c k]]|] eqn:Hn; try done.
  case_bool_decide as Hwake; [|done].
  destruct Hinv as [Hw Hids Hf Ht].
  pose proof (Forall_lookup_1 _ _ _ _ Hw Hn) as [Hid (a & -> & Hlog)].
  destruct (waiting_delete _ _ _ _ Hn Hids) as [Hnd Hnin].
  simpl. split; simpl.
  - apply Forall_app. split.
    + eapply (waiting_preserved s);
        [simpl; lia|simpl; reflexivity|exact Hnin|by apply Forall_delete].
    + apply Forall_singleton. simpl. split; [lia|]. by exists a.
  - rewrite fmap_app. simpl. apply NoDup_app. split; [done|]. split.
    + intros id' Hid'. rewrite list_elem_of_singleton. intros ->. done.
    + apply NoDup_singleton.
  - intros e. rewrite elem_of_app, list_elem_of_singleton.
    intros [He| ->]; [by apply Hf|done].
  - eapply wellTimed_Shown; [done|done|]. simpl.
    intros d kd Hd Hby Hdd. destruct (Hlog d Hd Hby) as [Hdid Hle].
    split; [lia|congruence].
Qed.

Lemma findTaking_Some (chan : Chan) (ws : list (nat * Waiting))
    (m n id : nat) (k : string -> Saga) :
  findTaking chan ws m = Some (n, id, k) ->
  m <= n /\ ws !! (n - m) = Some (id, Taking chan k).
Proof.
  revert m. induction ws as [|[id' [wake k'|c k']] ws IH]; intros m; simpl.
  - done.
  - intros Hfind. destruct (IH _ Hfind) as [Hle Hlook]. split; [lia|].
    by replace (n - m) with (S (n - S m)) by lia.
  - case_bool_decide as Hc.
    + intros [= <- <- <-]. subst c. split; [lia|].
      by replace (m - m) with 0 by lia.
    + intros Hfind. destruct (IH _ Hfind) as [Hle Hlook]. split; [lia|].
      by replace (n - m) with (S (n - S m)) by lia.
Qed.

Lemma Invariant_Emit (s : System) (chan : Chan) (alertAction : string) :
  Invariant s -> Invariant (step s (Emit chan alertAction)).
Proof.
  intros Hinv. simpl.
  destruct (findTaking chan (waiting s) 0) as [[[n id] k]|] eqn:Hfind;
    [|done].
  apply findTaking_Some in Hfind as [_ Hn].
  replace (n - 0) with n in Hn by lia.
  destruct Hinv as [Hw Hids Hf Ht].
  pose proof (Forall_lookup_1 _ _ _ _ Hw Hn) as [Hid (a & ->)].
  destruct (waiting_delete _ _ _ _ Hn Hids) as [Hnd Hnin].
  simpl. split; simpl; try done.
  eapply Forall_impl; [by apply Forall_delete|].
  intros w. by apply waitingOk_ext.
Qed.

Lemma Invariant_step (s : System) (i : Input) :
  Invariant s -> Invariant (step s i).
Proof.
  destruct i as [a|ms|n|c str|key].
  - apply Invariant_Dispatch.
  - intros [Hw Hids Hf Ht]. by split.
  - apply Invariant_TimerFires.
  - apply Invariant_Emit.
  - intros [Hw Hids Hf Ht]. by split.
Qed.

Lemma Invariant_run (inputs : list Input) (s : System) :
  Invariant s -> Invariant (run s inputs).
Proof.
  revert s. induction inputs as [|i inputs IH]; intros s Hinv; [done|].
  simpl. apply IH. by apply Invariant_step.
Qed.

(** After a dismissal the handler's timer shows nothing before 500 ms
    are over. *)
Lemma step_TimerFires_early (s : System) (action : ShowAlert) (ms : nat) :
  alertKey action ∈ keys (toasts s) -> ms < 500 ->
  run s [Dispatch action; Elapse ms; TimerFires (length (waiting s))]
  = run s [Dispatch action; Elapse ms].
Proof.
  intros Hin Hms. unfold run. cbn [foldl].
  rewrite step_Dispatch_existing by done. cbn [step waiting now].
  rewrite list_lookup_middle by done.
  rewrite bool_decide_eq_false_2 by lia. done.
Qed.

(** Once they are over it shows the toast, in front of the others. *)
Lemma step_TimerFires_due (s : System) (action : ShowAlert) (ms : nat) :
  alertKey action ∈ keys (toasts s) -> 500 <= ms ->
  toasts
    (run s [Dispatch action; Elapse ms; TimerFires (length (waiting s))])
  = {| toast_props :=
         getAlertProps (domain action) (specific action) (channels s)
           (props action);
       toast_key := alertKey action |}
    :: toaster_dismiss (alertKey action) (toasts s).
Proof.
  intros Hin Hms. unfold run. cbn [foldl].
  rewrite step_Dispatch_existing by done. cbn [step waiting now].
  rewrite list_lookup_middle by done.
  rewrite bool_decide_eq_true_2 by lia. simpl. unfold toaster_show.
  assert (Hnew : toaster_isNewToastKey (alertKey action)
                   (toaster_dismiss (alertKey action) (toasts s)) = true).
  { apply toaster_isNewToastKey_spec.
    rewrite toaster_dismiss_keys, list_elem_of_filter. tauto. }
  by rewrite Hnew.
Qed.

(** C9. The key of a toast is the string built from the domain, the
    specific name and the JSON text of the props of its action, with dots
    in between: actions that agree on the three have one key, and actions
    without dots in their names that differ in one of the three have
    different keys, so that handling the one leaves the toast of the other
    alone.  Whatever actions are dispatched, timers fire and toasts emit or
    go, at every moment at most one toast with a given key is on screen.
    When an [alertsShowAlert] action is handled while a toast with its key
    is on screen, the handler dismisses that toast (none with the key is
    left) and sleeps for 500 ms, with the toast under the same key left to
    show: its timer shows nothing before 500 ms are over, and shows the
    toast once they are.  When no toast with the key is on screen the toast
    is shown at once.  And no handler ever shows its toast sooner than
    500 ms after it dismissed one, nor under another key. *)
Theorem showAlert_avoids_duplicate_toasts
    (inputs : list Input) (action : ShowAlert) :
  let s := run start inputs in
  alertKey action
  = domain action +:+ "." +:+ specific action +:+ "."
    +:+ JSON_stringify (props action)
  /\ (forall other : ShowAlert,
        domain other = domain action ->
        specific other = specific action ->
        JSON_stringify (props other) = JSON_stringify (props action) ->
        alertKey other = alertKey action)
  /\ (forall other : ShowAlert,
        dotFree (domain action) -> dotFree (specific action) ->
        dotFree (domain other) -> dotFree (specific other) ->
        domain other <> domain action \/ specific other <> specific action
        \/ JSON_stringify (props other) <> JSON_stringify (props action) ->
        alertKey other <> alertKey action
        /\ toastsWithKey (alertKey action)
             (toasts (step s (Dispatch other)))
           = toastsWithKey (alertKey action) (toasts s))
  /\ (forall key : string, length (toastsWithKey key (toasts s)) <= 1)
  /\ (alertKey action ∈ keys (toasts s) ->
      step s (Dispatch action) =
        {| toasts := toaster_dismiss (alertKey action) (toasts s);
           now := now s;
           waiting := waiting s ++
             [(forked s, Sleeping (now s + 500) (showAndReport action))];
           forked := S (forked s);
           channels := channels s;
           puts := puts s;
           log := log s ++ [{| at_ms := now s; by_handler := forked s;
                               did := Dismissed (alertKey action) |}] |}
      /\ toastsWithKey (alertKey action)
           (toasts (step s (Dispatch action))) = []
      /\ (forall ms : nat,
            ms < 500 ->
            run s [Dispatch action; Elapse ms;
                   TimerFires (length (waiting s))]
            = run s [Dispatch action; Elapse ms])
      /\ (forall ms : nat,
            500 <= ms ->
            toasts (run s [Dispatch action; Elapse ms;
                           TimerFires (length (waiting s))])
            = {| toast_props :=
                   getAlertProps (domain action) (specific action)
                     (channels s) (props action);
                 toast_key := alertKey action |}
              :: toaster_dismiss (alertKey action) (toasts s)))
  /\ (alertKey action ∉ keys (toasts s) ->
      toasts (step s (Dispatch action)) =
        {| toast_props :=
             getAlertProps (domain action) (specific action) (channels s)
               (props action);
           toast_key := alertKey action |} :: toasts s)
  /\ wellTimed (log s).
Proof.
  intros s. split; [reflexivity|].
  split; [|split; [|split; [|split; [|split]]]].
  - intros other Hd Hsp Hj. unfold alertKey. by rewrite Hd, Hsp, Hj.
  - intros other Hda Hsa Hdo Hso Hdiff.
    assert (Hne : alertKey other <> alertKey action).
    { intros E. unfold alertKey in E.
      apply append_dot_inj in E as [Hd E]; [|done..].
      apply append_dot_inj in E as [Hsp E]; [|done..].
      destruct Hdiff as [Hdiff|[Hdiff|Hdiff]]; by apply Hdiff. }
    split; [exact Hne|]. apply step_Dispatch_other_key.
    intros E. by apply Hne.
  - intros key. apply toastsWithKey_NoDup. apply run_NoDup. constructor.
  - intros Hin. split; [by apply step_Dispatch_existing|].
    split; [|split].
    + rewrite step_Dispatch_existing by done.
      simpl. apply toastsWithKey_absent.
      rewrite toaster_dismiss_keys, list_elem_of_filter. tauto.
    + intros ms Hms. by apply step_TimerFires_early.
    + intros ms Hms. by apply step_TimerFires_due.
  - intros Hnin. by rewrite step_Dispatch_fresh.
  - apply inv_timed. apply Invariant_run. apply Invariant_start.
Qed.

End AlertsFacts.

Section AlertsExamples.
Import Alerts.
#[local] Existing Instance Alerts.sampleImports.

Example sampleAlert_key : alertKey sampleAlert = "ble.missingService.{}".
Proof. reflexivity. Qed.

(** The second handler finds the toast of the first, dismisses it and
    sleeps; its timer does nothing after 499 ms and shows the toast after
    500 ms. *)
Example sampleInputs_log :
  toasts (run start (take 4 sampleInputs)) = []
  /\ toasts (run start sampleInputs)
     = [{| toast_props := ("ble.missingService", 1);
           toast_key := "ble.missingService.{}" |}]
  /\ log (run start sampleInputs)
     = [{| at_ms := 0; by_handler := 0;
           did := Shown "ble.missingService.{}" |};
        {| at_ms := 0; by_handler := 1;
           did := Dismissed "ble.missingService.{}" |};
        {| at_ms := 500; by_handler := 1;
           did := Shown "ble.missingService.{}" |}].
Proof. repeat split; reflexivity. Qed.

(** The key of the sample alert; the same alert again is a duplicate,
    another alert is not. *)
Lemma showAlert_avoids_duplicate_toasts_witness :
  alertKey sampleAlert = "ble.missingService.{}"
  /\ alertKey sampleAlert ∈ keys (toasts (run start [Dispatch sampleAlert]))
  /\ toastsWithKey "ble.missingService.{}"
       (toasts (run start [Dispatch sampleAlert; Dispatch sampleAlert])) = []
  /\ length (toastsWithKey "ble.missingService.{}"
               (toasts (run start sampleInputs))) <= 1
  /\ alertKey otherAlert <> "ble.missingService.{}"
  /\ toastsWithKey "ble.missingService.{}"
       (toasts (run start [Dispatch sampleAlert; Dispatch otherAlert]))
     = [{| toast_props := ("ble.missingService", 0);
           toast_key := "ble.missingService.{}" |}].
Proof.
  assert (Hin : alertKey sampleAlert
                ∈ keys (toasts (run start [Dispatch sampleAlert]))).
  { apply list_elem_of_singleton. reflexivity. }
  assert (Hd : dotFree (domain sampleAlert)).
  { vm_compute. repeat split; discriminate. }
  assert (Hs : dotFree (specific sampleAlert)).
  { vm_compute. repeat split; discriminate. }
  assert (Hdo : dotFree (domain otherAlert)).
  { vm_compute. repeat split; discriminate. }
  assert (Hso : dotFree (specific otherAlert)).
  { vm_compute. repeat split; discriminate. }
  assert (Hdiff : domain otherAlert <> domain sampleAlert
                  \/ specific otherAlert <> specific sampleAlert
                  \/ JSON_stringify (props otherAlert)
                     <> JSON_stringify (props sampleAlert)).
  { left. discriminate. }
  destruct (showAlert_avoids_duplicate_toasts [Dispatch sampleAlert]
              sampleAlert)
    as (Hkey & _ & Hother & _ & Hexisting & _).
  destruct (Hother otherAlert Hd Hs Hdo Hso Hdiff) as [Hne Hleft].
  split; [exact Hkey|]. split; [exact Hin|]. split.
  - apply (Hexisting Hin).
  - split.
    + apply (showAlert_avoids_duplicate_toasts sampleInputs sampleAlert).
    + split; [exact Hne|]. exact Hleft.
Defined.

End AlertsExamples.

(** ** Chunks *)

Section ChunkFacts.
Import FlashCore.

Lemma chunksFrom_nil (size from : nat) : chunksFrom size from [] = [].
Proof. destruct size; by simp chunksFrom. Qed.

(** Cutting the first chunk off an image that has bytes left. *)
Lemma chunksFrom_cons (size from : nat) (bytes : list Byte.byte) :
  0 < size -> bytes <> [] ->
  chunksFrom size from bytes =
    {| offset := from; payload := take size bytes |}
    :: chunksFrom size (from + size) (drop size bytes).
Proof.
  intros Hsize Hne. destruct size as [|n]; [lia|].
  destruct bytes as [|b bytes]; [done|]. by simp chunksFrom.
Qed.

(** Induction on the image, a chunk at a time. *)
Lemma chunk_ind (size : nat) :
  0 < size ->
  forall P : list Byte.byte -> Prop,
    P [] ->
    (forall bytes, bytes <> [] -> P (drop size bytes) -> P bytes) ->
    forall bytes, P bytes.
Proof.
  intros Hsize P Hnil Hstep bytes.
  remember (length bytes) as n eqn:Hn. revert bytes Hn.
  induction n as [n IH] using lt_wf_ind. intros bytes ->.
  destruct bytes as [|b bytes]; [done|].
  apply Hstep; [done|]. apply (IH (length (drop size (b :: bytes)))); [|done].
  rewrite length_drop. simpl. lia.
Qed.

Lemma chunksFrom_concat (size from : nat) (bytes : list Byte.byte) :
  0 < size -> concat (payload <$> chunksFrom size from bytes) = bytes.
Proof.
  intros Hsize. revert from.
  induction bytes as [|bytes Hne IH] using (chunk_ind size Hsize);
    intros from.
  - by rewrite chunksFrom_nil.
  - rewrite chunksFrom_cons, fmap_cons by done. cbn [concat payload].
    rewrite IH. apply take_drop.
Qed.

Lemma chunksFrom_tiles (size from : nat) (bytes : list Byte.byte) :
  0 < size ->
  tiles from (chunksFrom size from bytes) (from + length bytes).
Proof.
  intros Hsize. revert from.
  induction bytes as [|bytes Hne IH] using (chunk_ind size Hsize);
    intros from.
  - rewrite chunksFrom_nil. simpl. lia.
  - rewrite chunksFrom_cons by done. cbn [tiles offset payload].
    split; [done|]. specialize (IH (from + size)).
    rewrite length_drop in IH. rewrite length_take.
    destruct (decide (size <= length bytes)) as [Hle|Hgt].
    + replace (size `min` length bytes) with size by lia.
      by replace (from + length bytes)
        with (from + size + (length bytes - size)) by lia.
    + assert (Hd : drop size bytes = []) by (apply drop_ge; lia).
      rewrite Hd, chunksFrom_nil. simpl. lia.
Qed.

Lemma chunksFrom_payload (size from : nat) (bytes : list Byte.byte) :
  0 < size ->
  Forall (fun c => 0 < length (payload c) <= size)
         (chunksFrom size from bytes).
Proof.
  intros Hsize. revert from.
  induction bytes as [|bytes Hne IH] using (chunk_ind size Hsize);
    intros from.
  - rewrite chunksFrom_nil. constructor.
  - rewrite chunksFrom_cons by done. constructor; [|apply IH].
    simpl. rewrite length_take. destruct bytes; [done|]. simpl. lia.
Qed.

(** The offsets are the multiples of the chunk size. *)
Lemma chunksFrom_offsets (size from : nat) (bytes : list Byte.byte) :
  0 < size ->
  offset <$> chunksFrom size from bytes =
    (fun i => from + i * size)
    <$> seq 0 (length (chunksFrom size from bytes)).
Proof.
  intros Hsize. revert from.
  induction bytes as [|bytes Hne IH] using (chunk_ind size Hsize);
    intros from.
  - by rewrite chunksFrom_nil.
  - rewrite chunksFrom_cons by done. cbn [length seq]. rewrite !fmap_cons.
    cbn [offset]. f_equal; [lia|]. rewrite IH, <- fmap_S_seq.
    rewrite <- list_fmap_compose. apply list_fmap_ext.
    intros i x _. simpl. lia.
Qed.

(** The number of chunks: the image size over the chunk size, rounded
    up. *)
Lemma chunksFrom_length (size from : nat) (bytes : list Byte.byte) :
  0 < size ->
  length (chunksFrom size from bytes) = (length bytes + size - 1) / size.
Proof.
  intros Hsize. revert from.
  induction bytes as [|bytes Hne IH] using (chunk_ind size Hsize);
    intros from.
  - rewrite chunksFrom_nil. simpl. symmetry. apply Nat.div_small. lia.
  - rewrite chunksFrom_cons by done. cbn [length]. rewrite IH, length_drop.
    assert (0 < length bytes) by (destruct bytes; [done|simpl; lia]).
    destruct (decide (size <= length bytes)) as [Hle|Hgt].
    + replace (length bytes + size - 1)
        with ((length bytes - size + size - 1) + 1 * size) by lia.
      rewrite Nat.div_add by lia. lia.
    + replace (length bytes - size + size - 1) with (size - 1) by lia.
      rewrite (Nat.div_small (size - 1)) by lia.
      replace (length bytes + size - 1)
        with ((length bytes - 1) + 1 * size) by lia.
      rewrite Nat.div_add, Nat.div_small by lia. lia.
Qed.

(** The last chunk holds what is left over, or a full chunk when nothing
    is. *)
Lemma chunksFrom_last (size from : nat) (bytes : list Byte.byte) :
  0 < size -> bytes <> [] ->
  exists c : Chunk,
    last (chunksFrom size from bytes) = Some c
    /\ length (payload c) =
         if decide (length bytes mod size = 0) then size
         else length bytes mod size.
Proof.
  intros Hsize. revert from.
  induction bytes as [|bytes Hne IH] using (chunk_ind size Hsize);
    intros from Hnil; [done|].
  rewrite chunksFrom_cons by done.
  assert (0 < length bytes) by (destruct bytes; [done|simpl; lia]).
  destruct (decide (drop size bytes = [])) as [Hd|Hd].
  - rewrite Hd, chunksFrom_nil. eexists. split; [done|].
    simpl. rewrite length_take.
    assert (length bytes <= size).
    { apply (f_equal length) in Hd. rewrite length_drop in Hd.
      simpl in Hd. lia. }
    destruct (decide (length bytes = size)) as [->|Hlt].
    + rewrite Nat.Div0.mod_same, decide_True by done. lia.
    + rewrite Nat.mod_small, decide_False by lia. lia.
  - destruct (IH (from + size) Hd) as (c & Hlast & Hlen).
    exists c. split.
    + rewrite last_cons, Hlast. done.
    + rewrite Hlen, length_drop.
      assert (size <= length bytes).
      { destruct (decide (size <= length bytes)); [done|].
        destruct Hd. apply drop_ge. lia. }
      assert (Hmod : length bytes mod size
                     = (length bytes - size) mod size).
      { rewrite <- (Nat.Div0.mod_add (length bytes - size) 1 size).
        f_equal. lia. }
      by rewrite Hmod.
Qed.

(** The offsets grow from chunk to chunk. *)
Lemma chunksFrom_sorted (size from : nat) (bytes : list Byte.byte) :
  0 < size -> StronglySorted lt (offset <$> chunksFrom size from bytes).
Proof.
  intros Hsize. rewrite chunksFrom_offsets by done.
  generalize (length (chunksFrom size from bytes)) as n.
  generalize 0 as k. intros k n. revert k.
  induction n as [|n IH]; intros k; simpl; constructor; [apply IH|].
  apply Forall_forall. intros x Hin.
  apply list_elem_of_fmap in Hin as (i & -> & Hi).
  apply elem_of_seq in Hi. nia.
Qed.

End ChunkFacts.

(** ** The flash session *)

Section SessionFacts.
Import FlashCore.
Context (b : Bounds) (pkg : FirmwarePackage).

Lemma run_app (s : Session) (evs1 evs2 : list Event) :
  run b pkg s (evs1 ++ evs2) =
    (fst (run b pkg (fst (run b pkg s evs1)) evs2),
     snd (run b pkg s evs1)
     ++ snd (run b pkg (fst (run b pkg s evs1)) evs2)).
Proof.
  revert s. induction evs1 as [|e evs1 IH]; intros s; simpl.
  - by destruct (run b pkg s evs2).
  - destruct (step b pkg s e) as [s1 out1]. rewrite IH.
    destruct (run b pkg s1 evs1) as [s2 out2]. simpl.
    by rewrite app_assoc.
Qed.

(** A session that has failed stays as it is and does nothing more. *)
Lemma run_Failed (s : Session) (reason : ErrorKind) (evs : list Event) :
  state s = Failed reason -> run b pkg s evs = (s, []).
Proof.
  intros Hs. induction evs as [|e evs IH]; [done|].
  simpl. unfold step. rewrite Hs. by rewrite IH.
Qed.

Lemma step_untouched (s : Session) (e : Event) :
  untouched s ->
  (forall h size, e = Info h size -> h <> hubDeviceId (metadata pkg)) ->
  untouched (fst (step b pkg s e)) /\ harmless (snd (step b pkg s e)).
Proof.
  unfold untouched, harmless, step, commands. intros Hs He.
  destruct s as [st att rem]. simpl in *.
  assert (Hm : forall h size, e = Info h size -> hubTypeMatches pkg h = false).
  { intros h size E. apply bool_decide_eq_false_2. intros E'.
    by apply (He h size). }
  destruct st; try done;
    destruct e as [| | |h size| | | | |]; simpl;
    try rewrite (Hm _ _ eq_refl); repeat case_bool_decide; simpl;
    (split; [done|repeat constructor]).
Qed.

Lemma run_untouched (s : Session) (evs : list Event) :
  untouched s ->
  Forall (fun h => h <> hubDeviceId (metadata pkg)) (reportedHubTypes evs) ->
  untouched (fst (run b pkg s evs)) /\ harmless (snd (run b pkg s evs)).
Proof.
  revert s. induction evs as [|e evs IH]; intros s Hs Hevs; simpl.
  - split; [done|constructor].
  - destruct (step_untouched s e Hs) as [Hs1 Hout1].
    { intros h size ->. simpl in Hevs. by apply Forall_cons in Hevs as [? _]. }
    destruct (step b pkg s e) as [s1 out1]. simpl in *.
    destruct (IH s1 Hs1) as [Hs2 Hout2].
    { destruct e; simpl in Hevs; try done.
      by apply Forall_cons in Hevs as [_ ?]. }
    destruct (run b pkg s1 evs) as [s2 out2]. simpl in *.
    split; [done|]. unfold harmless, commands in *.
    rewrite omap_app. by apply Forall_app.
Qed.

Lemma run_cons (s : Session) (e : Event) (evs : list Event) :
  run b pkg s (e :: evs) =
    (fst (run b pkg (fst (step b pkg s e)) evs),
     snd (step b pkg s e) ++ snd (run b pkg (fst (step b pkg s e)) evs)).
Proof.
  cbn [run]. destruct (step b pkg s e) as [s1 out1]. cbn [fst snd].
  by destruct (run b pkg s1 evs).
Qed.

Lemma commands_app (out1 out2 : list Output) :
  commands (out1 ++ out2) = commands out1 ++ commands out2.
Proof. apply omap_app. Qed.

(** With every chunk acknowledged, the chunks are written one after the
    other, each once, and the checksum is asked for. *)
Lemma run_acknowledged (cs : list Chunk) (rest : list Event) :
  fst (run b pkg (fst (writeNext cs)) (replicate (length cs) Ack ++ rest))
  = fst (run b pkg verifying rest)
  /\ commands
       (snd (writeNext cs)
        ++ snd (run b pkg (fst (writeNext cs))
                  (replicate (length cs) Ack ++ rest)))
     = ((fun c => WriteChunk (offset c) (payload c)) <$> cs)
       ++ GetChecksum :: commands (snd (run b pkg verifying rest)).
Proof.
  induction cs as [|c cs [IHs IHc]]; [done|].
  cbn [length replicate app]. rewrite run_cons.
  replace (step b pkg (fst (writeNext (c :: cs))) Ack)
    with (writeNext cs) by done.
  cbn [fst snd]. split; [done|].
  rewrite commands_app, IHc. done.
Qed.

(** A session in which nothing goes wrong completes, and what it puts on
    the wire is: GetInfo, EraseFlash, one WriteChunk for each chunk of the
    image, in order, GetChecksum, StartApplication. *)
Lemma run_smooth (size : nat) :
  0 < size ->
  let r := run b pkg idle (smooth pkg (hubDeviceId (metadata pkg)) size) in
  state (fst r) = Completed
  /\ commands (snd r) =
       [GetInfo; EraseFlash]
       ++ ((fun c => WriteChunk (offset c) (payload c))
           <$> chunks size (imageBytes pkg))
       ++ [GetChecksum; StartApplication].
Proof.
  intros Hsize. unfold smooth.
  set (cs := chunks size (imageBytes pkg)).
  set (rest := [Checksum (imageChecksum (metadata pkg)); LinkClosed]).
  destruct (run_acknowledged cs rest) as [Hs Hc].
  assert (Hrest : run b pkg verifying rest =
                    (fst (enter Completed),
                     [Enter Rebooting; Send StartApplication;
                      Enter Completed])).
  { unfold rest. simpl. unfold step. simpl.
    by rewrite bool_decide_eq_true_2. }
  rewrite Hrest in Hs, Hc. cbn [app]. rewrite !run_cons.
  set (s3 := fst (step b pkg _ (Info _ size))).
  assert (Hs3 : s3 = {| state := Erasing; attempt := 1; remaining := cs |}).
  { unfold s3, step. simpl.
    unfold hubTypeMatches. by rewrite bool_decide_eq_true_2. }
  assert (Hstep4 : step b pkg s3 Ack =
                     (fst (writeNext cs),
                      Enter Programming :: snd (writeNext cs))).
  { rewrite Hs3. unfold step. simpl. by destruct (writeNext cs). }
  rewrite Hstep4. cbn [fst snd]. split; [by rewrite Hs|].
  rewrite commands_app in Hc. rewrite !commands_app.
  change (commands (Enter Programming :: (writeNext cs).2))
    with (commands (writeNext cs).2).
  rewrite Hc. unfold step. simpl.
  unfold hubTypeMatches. rewrite bool_decide_eq_true_2 by done.
  reflexivity.
Qed.

(** C1. In a session in which every hub type the connected hub reports
    differs from the one the package declares, no EraseFlash and no
    WriteChunk command is ever put on the wire; and when the hub's
    information arrives in the Handshaking state, whatever packet size it
    reports, the session enters ValidatingPackage and from there
    Failed(HubTypeMismatch), where it stays, whatever happens
    afterwards. *)
Theorem hub_type_mismatch_fails_before_flash (evs : list Event) :
  Forall (fun h => h <> hubDeviceId (metadata pkg)) (reportedHubTypes evs) ->
  harmless (snd (run b pkg idle evs))
  /\ forall (before after : list Event) (h : HubType) (size : nat),
       evs = before ++ Info h size :: after ->
       state (fst (run b pkg idle before)) = Handshaking ->
       state (fst (run b pkg idle evs)) = Failed HubTypeMismatch
       /\ snd (run b pkg idle evs) =
            snd (run b pkg idle before)
            ++ [Enter ValidatingPackage; Enter (Failed HubTypeMismatch)].
Proof.
  intros Hevs. split; [by apply run_untouched|].
  intros before after h size -> Hstate.
  assert (Hh : h <> hubDeviceId (metadata pkg)).
  { unfold reportedHubTypes in Hevs. rewrite omap_app in Hevs.
    apply Forall_app in Hevs as [_ Hevs]. simpl in Hevs.
    by apply Forall_cons in Hevs as [? _]. }
  rewrite run_app, run_cons. cbn [fst snd].
  assert (Hstep : step b pkg (fst (run b pkg idle before)) (Info h size) =
                    ({| state := Failed HubTypeMismatch; attempt := 0;
                        remaining := [] |},
                     [Enter ValidatingPackage;
                      Enter (Failed HubTypeMismatch)])).
  { unfold step. rewrite Hstate.
    unfold hubTypeMatches. by rewrite bool_decide_eq_false_2 by congruence. }
  rewrite Hstep. cbn [fst snd].
  rewrite (run_Failed _ HubTypeMismatch) by done. cbn [fst snd].
  by rewrite app_nil_r.
Qed.

End SessionFacts.

Section ChunkTheorem.
Import FlashCore.

(** C2. For an image of N > 0 bytes and a chunk size C > 0, the offsets
    of the chunks grow strictly; the chunks lie end to end from 0 to N, and
    their payloads, one after the other, are the image (no gap, no
    overlap); every payload has at least one and at most C bytes; the last
    has N mod C bytes, or C when N mod C = 0.  A session in which nothing
    goes wrong writes each chunk once, in this order, between the erase
    and the checksum.  For N = 1024 and C = 256 there are four chunks, at
    the offsets 0, 256, 512 and 768. *)
Theorem chunks_cover_image (size : nat) (image : list Byte.byte) :
  0 < size -> 0 < length image ->
  StronglySorted lt (offset <$> chunks size image)
  /\ tiles 0 (chunks size image) (length image)
  /\ concat (payload <$> chunks size image) = image
  /\ Forall (fun c => 0 < length (payload c) <= size) (chunks size image)
  /\ (exists c : Chunk,
        last (chunks size image) = Some c
        /\ length (payload c) =
             if decide (length image mod size = 0) then size
             else length image mod size)
  /\ (forall (b : Bounds) (pkg : FirmwarePackage),
        imageBytes pkg = image ->
        let r :=
          run b pkg idle (smooth pkg (hubDeviceId (metadata pkg)) size) in
        state (fst r) = Completed
        /\ commands (snd r) =
             [GetInfo; EraseFlash]
             ++ ((fun c => WriteChunk (offset c) (payload c))
                 <$> chunks size image)
             ++ [GetChecksum; StartApplication])
  /\ (length image = 1024 -> size = 256 ->
      offset <$> chunks size image = [0; 256; 512; 768]).
Proof.
  intros Hsize Himage. unfold chunks.
  split; [by apply chunksFrom_sorted|].
  split; [by apply (chunksFrom_tiles size 0)|].
  split; [by apply chunksFrom_concat|].
  split; [by apply chunksFrom_payload|].
  split; [apply chunksFrom_last; [done|intros ->; simpl in Himage; lia]|].
  split.
  - intros b pkg <-. by apply run_smooth.
  - intros Hlen ->. rewrite chunksFrom_offsets, chunksFrom_length by done.
    rewrite Hlen. reflexivity.
Qed.

End ChunkTheorem.

Section SessionExamples.
Import FlashCore.

(** A City hub is connected and the package is for the Technic hub: the
    session asks for the hub's information and fails on it, also when the
    hub reports a packet size of zero. *)
Lemma hub_type_mismatch_fails_before_flash_witness :
  Forall (fun h => h <> hubDeviceId (metadata samplePackage))
         (reportedHubTypes cityHubSession)
  /\ harmless (snd (run sampleBounds samplePackage idle cityHubSession))
  /\ state (fst (run sampleBounds samplePackage idle cityHubSession))
     = Failed HubTypeMismatch
  /\ snd (run sampleBounds samplePackage idle cityHubSession)
     = [Enter Connecting; Enter Handshaking; Send GetInfo;
        Enter ValidatingPackage; Enter (Failed HubTypeMismatch)]
  /\ snd (run sampleBounds samplePackage idle cityHubZero)
     = [Enter Connecting; Enter Handshaking; Send GetInfo;
        Enter ValidatingPackage; Enter (Failed HubTypeMismatch)].
Proof.
  assert (Hevs : Forall (fun h => h <> hubDeviceId (metadata samplePackage))
                        (reportedHubTypes cityHubSession)).
  { repeat constructor. discriminate. }
  assert (Hzero : Forall (fun h => h <> hubDeviceId (metadata samplePackage))
                         (reportedHubTypes cityHubZero)).
  { repeat constructor. discriminate. }
  destruct (hub_type_mismatch_fails_before_flash sampleBounds samplePackage
              cityHubSession Hevs) as [Hharmless Hfails].
  destruct (Hfails [FlashRequested; TransportOpened] [Ack; Ack] CityHub 256
              eq_refl eq_refl) as [Hstate Hout].
  destruct (hub_type_mismatch_fails_before_flash sampleBounds samplePackage
              cityHubZero Hzero) as [_ Hfails0].
  destruct (Hfails0 [FlashRequested; TransportOpened] [] CityHub 0
              eq_refl eq_refl) as [_ Hout0].
  split; [exact Hevs|]. split; [exact Hharmless|].
  split; [exact Hstate|]. split; [exact Hout|exact Hout0].
Defined.

(** An image of 1024 bytes in chunks of 256. *)
Lemma chunks_cover_image_witness :
  0 < 256
  /\ 0 < length (imageBytes samplePackage)
  /\ offset <$> chunks 256 (imageBytes samplePackage) = [0; 256; 512; 768]
  /\ StronglySorted lt (offset <$> chunks 256 (imageBytes samplePackage)).
Proof.
  assert (Hsize : 0 < 256) by lia.
  assert (Himage : 0 < length (imageBytes samplePackage)).
  { unfold samplePackage. cbn [imageBytes]. rewrite length_replicate. lia. }
  destruct (chunks_cover_image 256 (imageBytes samplePackage) Hsize Himage)
    as (Hsorted & _ & _ & _ & _ & _ & Hoffsets).
  split; [exact Hsize|]. split; [exact Himage|].
  split; [|exact Hsorted].
  apply Hoffsets; [|reflexivity]. apply length_replicate.
Defined.

Example samplePackage_commands :
  commands
    (snd (run sampleBounds samplePackage idle
            (smooth samplePackage TechnicHub 256)))
  = [GetInfo; EraseFlash;
     WriteChunk 0 (replicate 256 Byte.x00);
     WriteChunk 256 (replicate 256 Byte.x00);
     WriteChunk 512 (replicate 256 Byte.x00);
     WriteChunk 768 (replicate 256 Byte.x00);
     GetChecksum; StartApplication].
Proof. vm_compute. reflexivity. Qed.

End SessionExamples.

(** ** One connection at a time *)

Section Exclusive.
Import FlashButton.
Context `{Imports}.

(** [OpenFileButton], of which only this is taken: a disabled button calls
    none of its callbacks. *)
Variable OpenFileButton : OpenFileButtonProps -> UserEvent -> list Action.
Hypothesis OpenFileButton_disabled :
  forall (p : OpenFileButtonProps) (ev : UserEvent),
    enabled p = false -> OpenFileButton p ev = [].

Lemma FlashButton_enabled (s : RootState) :
  enabled (FlashButton s) = true <->
  bootloader_connection s = BootloaderConnectionState_Disconnected
  /\ ble_connection s = BleConnectionState_Disconnected.
Proof.
  simpl. by rewrite andb_true_iff, !bool_decide_eq_true.
Qed.

Lemma coordinate_length (open : list FlashCore.TransportKind)
    (r : FlashCore.Request) :
  length open <= 1 -> length (fst (FlashCore.coordinate open r)) <= 1.
Proof.
  intros Hlen. destruct r as [kind [|]|]; destruct open; simpl in *; lia.
Qed.

Lemma coordinateAll_length (rs : list FlashCore.Request)
    (open : list FlashCore.TransportKind) :
  length open <= 1 -> length (FlashCore.coordinateAll open rs) <= 1.
Proof.
  revert open. induction rs as [|r rs IH]; intros open Hlen; [done|].
  simpl. apply IH. by apply coordinate_length.
Qed.

(** C7. Whatever is asked of the coordinator, at most one transport is
    open; opening while one is open fails with AlreadyConnected and opens
    nothing, and succeeds once the connection has been closed.  The flash
    button is enabled exactly when the bootloader connection and the BLE
    connection are both Disconnected, so that every action it dispatches,
    [flashFirmware] among them, is dispatched in such a state. *)
Theorem flash_only_when_disconnected
    (rs : list FlashCore.Request) (s : RootState) (ev : UserEvent) :
  length (FlashCore.coordinateAll [] rs) <= 1
  /\ (forall (open : list FlashCore.TransportKind)
        (kind : FlashCore.TransportKind) (linkUp : bool),
        open <> [] ->
        FlashCore.coordinate open (FlashCore.Open kind linkUp)
        = (open, Some FlashCore.OpenFailed_AlreadyConnected))
  /\ (forall (open : list FlashCore.TransportKind)
        (kind : FlashCore.TransportKind),
        FlashCore.coordinate
          (fst (FlashCore.coordinate open FlashCore.Close))
          (FlashCore.Open kind true)
        = ([kind], Some FlashCore.Opened))
  /\ (enabled (FlashButton s) = true <->
      bootloader_connection s = BootloaderConnectionState_Disconnected
      /\ ble_connection s = BleConnectionState_Disconnected)
  /\ (forall a : Action,
        a ∈ OpenFileButton (FlashButton s) ev ->
        bootloader_connection s = BootloaderConnectionState_Disconnected
        /\ ble_connection s = BleConnectionState_Disconnected).
Proof.
  split; [apply coordinateAll_length; simpl; lia|].
  split; [by intros [|t open] kind linkUp|].
  split; [done|].
  split; [apply FlashButton_enabled|].
  intros a Hin. apply FlashButton_enabled.
  destruct (enabled (FlashButton s)) eqn:Hen; [done|].
  rewrite OpenFileButton_disabled in Hin by done.
  by apply elem_of_nil in Hin.
Qed.

End Exclusive.

Section ExclusiveExamples.
Import FlashButton.
#[local] Existing Instance FlashButton.sampleImports.

(** With both connections down a click on the button dispatches
    [flashFirmware(null)]; with the BLE connection up it dispatches
    nothing. *)
Example FlashButton_click :
  sampleOpenFileButton (FlashButton bothDisconnected) Click
  = [flashFirmware None]
  /\ sampleOpenFileButton (FlashButton bleConnected) Click = [].
Proof. split; reflexivity. Qed.

Lemma flash_only_when_disconnected_witness :
  (forall (p : OpenFileButtonProps) (ev : UserEvent),
     enabled p = false -> sampleOpenFileButton p ev = [])
  /\ length (FlashCore.coordinateAll []
               [FlashCore.Open FlashCore.BLE true;
                FlashCore.Open FlashCore.USB true]) <= 1
  /\ (flashFirmware None
      ∈ sampleOpenFileButton (FlashButton bothDisconnected) Click)
  /\ bootloader_connection bothDisconnected = Disconnected
  /\ ble_connection bothDisconnected = Disconnected.
Proof.
  assert (Hdisabled : forall (p : OpenFileButtonProps) (ev : UserEvent),
            enabled p = false -> sampleOpenFileButton p ev = []).
  { intros p ev Hp. unfold sampleOpenFileButton. by rewrite Hp. }
  assert (Hclick : flashFirmware None
            ∈ sampleOpenFileButton (FlashButton bothDisconnected) Click).
  { apply list_elem_of_singleton. reflexivity. }
  destruct (flash_only_when_disconnected sampleOpenFileButton Hdisabled
              [FlashCore.Open FlashCore.BLE true;
               FlashCore.Open FlashCore.USB true]
              bothDisconnected Click) as (Hone & _ & _ & _ & Hflash).
  split; [exact Hdisabled|]. split; [exact Hone|].
  split; [exact Hclick|]. exact (Hflash _ Hclick).
Defined.

End ExclusiveExamples.

(** ** More on the install dialog *)

Section DialogRunFacts.
Import InstallPybricksDialog.
Context `{Imports}.

Lemma licenseKept_weaken (ticked ticked' : Prop) (st : State) :
  (ticked -> ticked') -> licenseKept ticked st -> licenseKept ticked' st.
Proof. unfold licenseKept. tauto. Qed.

(** Only the step, the last step shown and the license matter. *)
Lemma licenseKept_ext (ticked : Prop) (st st' : State) :
  step st' = step st -> lastViewed st' = lastViewed st ->
  licenseAccepted st' = licenseAccepted st ->
  licenseKept ticked st -> licenseKept ticked st'.
Proof. unfold licenseKept. intros -> -> ->. tauto. Qed.

(** Going to a step that has been shown, or to the one after the step
    shown when that is not the license step with the license open. *)
Lemma licenseKept_setStep (ticked : Prop) (st : State) (n : nat) :
  licenseKept ticked st ->
  n <= lastViewed st \/ (n = S (step st) /\ (step st = 1 -> ticked)) ->
  licenseKept ticked (setStep n st).
Proof.
  unfold licenseKept. simpl. intros (Hle & Hacc & Hview) Hn.
  split; [lia|]. split; [done|]. intros Hmax.
  destruct (decide (2 <= lastViewed st)) as [?|Hlt]; [by apply Hview|].
  destruct Hn as [Hn|[-> Hn]]; [lia|]. apply Hn. lia.
Qed.

Lemma handle_licenseKept (ticked : Prop) (h : Hooks) (st : State)
    (ev : Event) :
  licenseKept ticked st ->
  licenseKept
    (ticked \/ (ev = LicenseCheckbox true
                /\ AcceptLicensePanel_selectedFirmwareData h <> None))
    (fst (handle h st ev))
  /\ (acceptedHubNames (snd (handle h st ev)) <> [] -> ticked).
Proof.
  intros Hk.
  assert (Hsame : forall X : Prop, licenseKept (ticked \/ X) st).
  { intros X. eapply licenseKept_weaken; [|exact Hk]. tauto. }
  pose proof Hk as (Hle & Hacc & Hview).
  unfold handle.
  destruct ev as [| | | | |index|f|b|s|b|f]; simpl.
  - split; [apply Hsame|]. simpl. intros Hne. by destruct Hne.
  - split; [|done]. unfold licenseKept in *. simpl.
    split; [lia|]. split; [tauto|lia].
  - destruct (bool_decide (step st < lastStep)
              && negb (nextButton_disabled st)) eqn:Hnext; simpl;
      [|by split; [apply Hsame|]].
    split; [|done]. apply licenseKept_setStep; [apply Hsame|]. right.
    split; [done|]. intros Hs. left. apply Hacc.
    apply andb_true_iff in Hnext as [_ Hnext].
    unfold nextButton_disabled in Hnext. rewrite Hs in Hnext.
    destruct (licenseAccepted st); simpl in Hnext; [done|discriminate].
  - case_bool_decide; simpl; [|by split; [apply Hsame|]].
    split; [|done]. apply licenseKept_setStep; [apply Hsame|].
    left. lia.
  - unfold lastStep. case_bool_decide as Hs; simpl;
      [|by split; [apply Hsame|]].
    split; [apply Hsame|]. intros _. apply Hview. lia.
  - destruct (bool_decide (index <= lastViewed st)) eqn:Hi; simpl;
      [|by split; [apply Hsame|]].
    apply bool_decide_eq_true in Hi.
    case_bool_decide; simpl; [|by split; [apply Hsame|]].
    split; [|done]. apply licenseKept_setStep; [apply Hsame|by left].
  - case_bool_decide; simpl;
      (split; [apply Hsame|done]).
  - unfold AcceptLicensePanel_checkbox_disabled.
    destruct (bool_decide (step st = 1)) eqn:Hs; simpl;
      [|by split; [apply Hsame|]].
    destruct (bool_decide (AcceptLicensePanel_selectedFirmwareData h = None))
      eqn:Hfw; simpl; [by split; [apply Hsame|]|].
    apply bool_decide_eq_false in Hfw.
    split; [|done]. unfold licenseKept. simpl.
    split; [done|]. split; [|tauto]. intros ->. by right.
  - case_bool_decide; simpl;
      (split; [apply Hsame|done]).
  - destruct (bool_decide (step st = 2) && _); simpl;
      (split; [apply Hsame|done]).
  - destruct (bool_decide (step st = 2) && _ && _); simpl;
      (split; [apply Hsame|done]).
Qed.

Lemma run_licenseKept (evs : list (Hooks * Event)) (st : State)
    (ticked : Prop) :
  licenseKept ticked st ->
  acceptedHubNames (snd (run st evs)) <> [] ->
  ticked \/ licenseTicked evs.
Proof.
  revert st ticked. induction evs as [|[h ev] evs IH]; intros st ticked Hk.
  - simpl. intros Hne. by destruct Hne.
  - simpl. destruct (handle_licenseKept ticked h st ev Hk) as [Hk1 Hout1].
    destruct (handle h st ev) as [st1 out1].
    destruct (run st1 evs) as [st2 out2] eqn:Hrun. simpl in *.
    unfold acceptedHubNames. rewrite omap_app. intros Hne.
    destruct (decide (acceptedHubNames out1 = [])) as [Hnil|Hsome].
    + unfold acceptedHubNames in Hnil. rewrite Hnil in Hne. simpl in Hne.
      specialize (IH st1 _ Hk1). rewrite Hrun in IH. simpl in IH.
      destruct (IH Hne) as [[Ht|(-> & Hfw)]|(h' & Hin & Hfw)].
      * by left.
      * right. exists h. split; [apply elem_of_cons; by left|done].
      * right. exists h'. split; [apply elem_of_cons; by right|done].
    + left. by apply Hout1.
Qed.

(** X1. The accept action is never dispatched unless the license checkbox
    was ticked at some point before, in a render whose license panel had
    the firmware whose license it shows (whether or not the dialog was
    still open then). *)
Theorem accept_needs_license_tick (evs : list (Hooks * Event))
    (bootloaderType : BootloaderType) (zip : ArrayBuffer)
    (program : option string) (name : string) :
  firmwareInstallPybricksDialogAccept bootloaderType zip program name
    ∈ dispatched evs ->
  licenseTicked evs.
Proof.
  intros Hin.
  assert (Hne : acceptedHubNames (dispatched evs) <> []).
  { intros Hnil. assert (Hn : name ∈ acceptedHubNames (dispatched evs)).
    { unfold acceptedHubNames. apply list_elem_of_omap.
      eexists. split; [exact Hin|done]. }
    rewrite Hnil in Hn. by apply elem_of_nil in Hn. }
  destruct (run_licenseKept evs initialState False) as [[]|Ht]; try done.
  unfold licenseKept. simpl. split; [lia|]. split; [done|lia].
Qed.

(** X2. When the members of the [HubType] enum are distinct, a known
    device id selects its hub whatever the fallback is; in the dialog a
    custom firmware with such a device id is flashed to that hub's
    bootloader, whatever hub is picked. *)
Theorem known_device_id_overrides_picker
    (d : DeviceId) (hub : Hub) (fw : FirmwareData) :
  NoDup (fst <$> knownHubs) ->
  (d, hub) ∈ knownHubs ->
  device_id (metadata fw) = d ->
  (forall fallback : Hub,
     getHubTypeFromMetadata (Some (metadata fw)) fallback = hub)
  /\ (forall (h : Hooks) (st : State),
        isOpen h = true -> step st = lastStep ->
        isCustomFirmwareRequested h = true ->
        customFirmwareData h = Some fw ->
        handle h st ClickFinal =
          (st, [firmwareInstallPybricksDialogAccept
                  (hubBootloaderType hub) (firmwareZip fw)
                  (path <$> selectedIncludeFile st) (hubName st)])).
Proof.
  intros Hnd Hin Hd.
  assert (Hget : forall fallback : Hub,
            getHubTypeFromMetadata (Some (metadata fw)) fallback = hub).
  { intros fallback. unfold getHubTypeFromMetadata. simpl. rewrite Hd.
    unfold knownHubs in *. simpl in Hnd.
    rewrite !NoDup_cons, !not_elem_of_cons in Hnd.
    rewrite !elem_of_cons in Hin.
    destruct Hin as [E|[E|[E|[E|[E|E]]]]];
      [| | | | |by apply elem_of_nil in E];
      injection E as -> ->; repeat case_decide; try done;
      exfalso; intuition congruence. }
  split; [exact Hget|]. intros h st Ho Hs Hc Hfw.
  rewrite handle_ClickFinal by done.
  unfold finalButton_onClick, selectedHubType, selectedFirmwareData.
  rewrite Hc, Hfw. simpl. by rewrite (Hget (hubType h)).
Qed.

(** X3. The hub type name shown for a custom firmware is ["?"] exactly
    when its metadata is undefined or names a device id the dialog has no
    case for, that is, exactly when the hub type falls back to the picked
    hub. *)
Theorem hub_type_name_unknown_iff (m : option FirmwareMetadata) :
  getHubTypeNameFromMetadata m = "?" <-> unrecognized m.
Proof.
  destruct m as [md|]; [|done]. unfold getHubTypeNameFromMetadata.
  simpl. unfold knownHubTypes. rewrite !not_elem_of_cons.
  repeat case_decide; split; try done; try discriminate;
    try (intros (? & ? & ? & ? & ? & _); congruence).
  intros _. repeat split; try done. apply not_elem_of_nil.
Qed.

(** With external flash in every render no file is ever selected. *)
Lemma handle_externalFlash (h : Hooks) (st : State) (ev : Event) :
  hubHasExternalFlash (selectedHubType h) = true ->
  selectedIncludeFile st = None ->
  selectedIncludeFile (fst (handle h st ev)) = None
  /\ Forall (fun p => p = None) (acceptedPrograms (snd (handle h st ev))).
Proof.
  intros Hflash Hnone. unfold handle.
  destruct ev; simpl; rewrite ?Hflash, ?andb_false_r; simpl;
    repeat case_match; simpl; split; try done; try constructor;
    try (by rewrite ?Hnone); try constructor.
Qed.

Lemma run_externalFlash (evs : list (Hooks * Event)) (st : State) :
  Forall (fun e => hubHasExternalFlash (selectedHubType (fst e)) = true) evs ->
  selectedIncludeFile st = None ->
  Forall (fun p => p = None) (acceptedPrograms (snd (run st evs))).
Proof.
  revert st. induction evs as [|[h ev] evs IH]; intros st Hevs Hnone.
  - constructor.
  - apply Forall_cons in Hevs as [Hh Hevs]. simpl in Hh |- *.
    destruct (handle_externalFlash h st ev Hh Hnone) as [Hst1 Hout1].
    destruct (handle h st ev) as [st1 out1].
    specialize (IH st1 Hevs Hst1).
    destruct (run st1 evs) as [st2 out2]. simpl in *.
    unfold acceptedPrograms in *. rewrite omap_app. by apply Forall_app.
Qed.

(** X4. As long as the selected hub has external flash, the accept action
    carries no custom program. *)
Theorem external_flash_no_custom_program (evs : list (Hooks * Event)) :
  Forall (fun e => hubHasExternalFlash (selectedHubType (fst e)) = true) evs ->
  Forall (fun p => p = None) (acceptedPrograms (dispatched evs)).
Proof. intros Hevs. by apply run_externalFlash. Qed.

(** An event dispatches at most the accept action with the file of the
    current state. *)
Lemma handle_program (h : Hooks) (st : State) (ev : Event) :
  acceptedPrograms (snd (handle h st ev)) = []
  \/ acceptedPrograms (snd (handle h st ev))
     = [path <$> selectedIncludeFile st].
Proof.
  unfold handle.
  destruct ev; simpl; repeat case_match; simpl; auto.
Qed.

(** The file after an event is the one before it, or the one picked. *)
Lemma handle_selectedIncludeFile (h : Hooks) (st : State) (ev : Event) :
  selectedIncludeFile (fst (handle h st ev)) = selectedIncludeFile st
  \/ exists f : FileMetadata,
       ev = IncludeFileSelect f
       /\ selectedIncludeFile (fst (handle h st ev)) = Some f.
Proof.
  unfold handle.
  destruct ev; simpl; repeat case_match; simpl; eauto.
Qed.

Lemma run_program (evs : list (Hooks * Event)) (st : State) (p : string) :
  Some p ∈ acceptedPrograms (snd (run st evs)) ->
  Some p = path <$> selectedIncludeFile st
  \/ exists f : FileMetadata, f ∈ selectedFiles evs /\ path f = p.
Proof.
  revert st. induction evs as [|[h ev] evs IH]; intros st; simpl.
  - intros Hin. by apply elem_of_nil in Hin.
  - destruct (handle h st ev) as [st1 out1] eqn:Hh.
    destruct (run st1 evs) as [st2 out2] eqn:Hr. simpl.
    unfold acceptedPrograms. rewrite omap_app, elem_of_app.
    intros [Hin|Hin].
    + left. destruct (handle_program h st ev) as [E|E];
        rewrite Hh in E; simpl in E; unfold acceptedPrograms in E;
        rewrite E in Hin.
      * by apply elem_of_nil in Hin.
      * by apply list_elem_of_singleton in Hin.
    + specialize (IH st1). rewrite Hr in IH. simpl in IH.
      destruct (IH Hin) as [Hst1|(f & Hf & Hp)].
      * destruct (handle_selectedIncludeFile h st ev) as [E|(f & -> & E)];
          rewrite Hh in E; simpl in E; rewrite E in Hst1.
        -- by left.
        -- right. exists f. split; [|by injection Hst1].
           unfold selectedFiles. simpl. apply elem_of_cons. by left.
      * right. exists f. split; [|done]. unfold selectedFiles in *.
        simpl. destruct ev; simpl; try done. apply elem_of_cons. by right.
Qed.

(** X5. The custom program of the accept action is the file picked last,
    whether or not the include switch is on: turning the switch off after
    picking a file leaves the file in the accept action.  A custom program
    always is the path of a file that was picked. *)
Theorem custom_program_ignores_include_switch (h : Hooks) (f : FileMetadata) :
  isOpen h = true ->
  AcceptLicensePanel_selectedFirmwareData h <> None ->
  hubHasExternalFlash (selectedHubType h) = false ->
  acceptedPrograms (dispatched (includeThenExclude h f)) = [Some (path f)]
  /\ includeProgram (fst (run initialState (includeThenExclude h f))) = false
  /\ (forall (evs : list (Hooks * Event)) (p : string),
        Some p ∈ acceptedPrograms (dispatched evs) ->
        exists f' : FileMetadata, f' ∈ selectedFiles evs /\ path f' = p).
Proof.
  intros Ho Hfw Hflash.
  assert (Hrun : run initialState (includeThenExclude h f) =
            ({| hubName := "";
                includeProgram := false;
                selectedIncludeFile := Some f;
                licenseAccepted := true;
                customFirmwareZip := None;
                step := 3;
                lastViewed := 3 |},
             [firmwareInstallPybricksDialogAccept
                (hubBootloaderType (selectedHubType h))
                (default [] (firmwareZip <$> selectedFirmwareData h))
                (Some (path f)) ""])).
  { unfold includeThenExclude, run, handle. rewrite Hflash.
    unfold AcceptLicensePanel_checkbox_disabled.
    rewrite (bool_decide_eq_false_2 _ Hfw). reflexivity. }
  unfold dispatched. rewrite Hrun. split; [done|]. split; [done|].
  intros evs p Hin.
  destruct (run_program evs initialState p Hin) as [Hinit|Hsel]; [|done].
  discriminate.
Qed.

(** X6. [licenseAccepted] is not tied to the firmware whose license was
    on screen when the checkbox was ticked.  With the license of one
    firmware ticked and every step shown, the user can return to the first
    step, drop a custom firmware and go straight to the last step by the
    list of steps: the final button then dispatches the zip file of the
    custom firmware, while the only tick was made in a render that had
    the other firmware. *)
Theorem license_tick_outlives_firmware_swap
    (h1 h2 : Hooks) (fw1 fw2 : FirmwareData) (file : string) :
  AcceptLicensePanel_selectedFirmwareData h1 = Some fw1 ->
  isCustomFirmwareRequested h2 = true ->
  customFirmwareData h2 = Some fw2 ->
  dispatched (tickThenSwapFirmware h1 h2 file)
  = [firmwareInstallPybricksDialogAccept
       (hubBootloaderType (selectedHubType h2)) (firmwareZip fw2) None ""]
  /\ licenseAccepted
       (fst (run initialState (tickThenSwapFirmware h1 h2 file))) = true
  /\ customFirmwareZip
       (fst (run initialState (tickThenSwapFirmware h1 h2 file)))
     = Some file
  /\ (forall h : Hooks,
        (h, LicenseCheckbox true) ∈ tickThenSwapFirmware h1 h2 file ->
        AcceptLicensePanel_selectedFirmwareData h = Some fw1).
Proof.
  intros Hfw1 Hc Hfw2.
  assert (Hrun : run initialState (tickThenSwapFirmware h1 h2 file) =
            ({| hubName := "";
                includeProgram := false;
                selectedIncludeFile := None;
                licenseAccepted := true;
                customFirmwareZip := Some file;
                step := 3;
                lastViewed := 3 |},
             [firmwareInstallPybricksDialogAccept
                (hubBootloaderType (selectedHubType h2)) (firmwareZip fw2)
                None ""])).
  { unfold tickThenSwapFirmware, run, handle.
    unfold AcceptLicensePanel_checkbox_disabled. rewrite Hfw1.
    rewrite (bool_decide_eq_false_2 (Some fw1 = None)) by discriminate.
    simpl.
    unfold finalButton_onClick, selectedFirmwareData.
    rewrite Hc, Hfw2. reflexivity. }
  unfold dispatched. rewrite Hrun. split; [done|]. split; [done|].
  split; [done|]. intros h Hin. unfold tickThenSwapFirmware in Hin.
  repeat (apply elem_of_cons in Hin as [Hin|Hin];
          [try discriminate Hin; by injection Hin as ->|]).
  by apply elem_of_nil in Hin.
Qed.

(** X7. The license gates the Next button of the license step only.
    After the license was ticked and the options step shown, the tick can
    be taken away and the final button still reached by the list of steps:
    the accept action is then dispatched while [licenseAccepted] is
    false. *)
Theorem accept_after_license_unticked (h : Hooks) :
  isOpen h = true ->
  AcceptLicensePanel_selectedFirmwareData h <> None ->
  licenseAccepted (fst (run initialState (tickUntickAndFlash h))) = false
  /\ nextButton_disabled
       (setStep 1 (fst (run initialState (tickUntickAndFlash h)))) = true
  /\ dispatched (tickUntickAndFlash h)
     = [firmwareInstallPybricksDialogAccept
          (hubBootloaderType (selectedHubType h))
          (default [] (firmwareZip <$> selectedFirmwareData h))
          None ""].
Proof.
  intros Ho Hfw.
  assert (Hrun : run initialState (tickUntickAndFlash h) =
            ({| hubName := "";
                includeProgram := false;
                selectedIncludeFile := None;
                licenseAccepted := false;
                customFirmwareZip := None;
                step := 3;
                lastViewed := 3 |},
             [firmwareInstallPybricksDialogAccept
                (hubBootloaderType (selectedHubType h))
                (default [] (firmwareZip <$> selectedFirmwareData h))
                None ""])).
  { unfold tickUntickAndFlash, run, handle.
    unfold AcceptLicensePanel_checkbox_disabled.
    rewrite (bool_decide_eq_false_2 _ Hfw). reflexivity. }
  unfold dispatched. rewrite Hrun. by repeat split.
Qed.

End DialogRunFacts.

Section DialogRunExamples.
Import InstallPybricksDialog.
#[local] Existing Instance InstallPybricksDialog.sampleImports.

Lemma accept_needs_license_tick_witness :
  firmwareInstallPybricksDialogAccept ble_lwp3_bootloader
    [Byte.x50; Byte.x4b] None "hub"
    ∈ dispatched (typeNameAndFlash sampleHooks "hub")
  /\ licenseTicked (typeNameAndFlash sampleHooks "hub").
Proof.
  assert (Hin : firmwareInstallPybricksDialogAccept ble_lwp3_bootloader
                  [Byte.x50; Byte.x4b] None "hub"
                ∈ dispatched (typeNameAndFlash sampleHooks "hub")).
  { apply list_elem_of_singleton. reflexivity. }
  split; [exact Hin|]. exact (accept_needs_license_tick _ _ _ _ _ Hin).
Defined.

(** A custom firmware for the Technic hub, dropped while the City hub is
    picked, goes to the Technic hub. *)
Lemma known_device_id_overrides_picker_witness :
  NoDup (fst <$> knownHubs)
  /\ (0x80%Z, Technic) ∈ knownHubs
  /\ getHubTypeFromMetadata (Some (metadata (sampleFirmware Technic))) City
     = Technic
  /\ selectedHubType technicHooks = Technic.
Proof.
  assert (Hnd : NoDup (fst <$> knownHubs)).
  { apply NoDup_ListNoDup. repeat constructor; simpl; intuition discriminate. }
  assert (Hin : (0x80%Z, Technic) ∈ knownHubs).
  { apply list_elem_of_In. simpl. tauto. }
  destruct (@known_device_id_overrides_picker sampleImports 0x80%Z Technic
              (sampleFirmware Technic) Hnd Hin eq_refl) as [Hget _].
  split; [exact Hnd|]. split; [exact Hin|]. split; [apply Hget|].
  apply (Hget City).
Defined.

(** With the Prime hub picked the include controls are not there. *)
Lemma external_flash_no_custom_program_witness :
  Forall (fun e => hubHasExternalFlash (selectedHubType (fst e)) = true)
         (includeThenExclude primeHooks sampleFile)
  /\ Forall (fun p => p = None)
        (acceptedPrograms
           (dispatched (includeThenExclude primeHooks sampleFile))).
Proof.
  assert (Hevs : Forall
            (fun e => hubHasExternalFlash (selectedHubType (fst e)) = true)
            (includeThenExclude primeHooks sampleFile)).
  { repeat constructor. }
  split; [exact Hevs|]. exact (external_flash_no_custom_program _ Hevs).
Defined.

Example primeHooks_accept :
  dispatched (includeThenExclude primeHooks sampleFile)
  = [firmwareInstallPybricksDialogAccept usb_lego_dfu [Byte.x50; Byte.x4b]
       None ""].
Proof. reflexivity. Qed.

Lemma custom_program_ignores_include_switch_witness :
  isOpen sampleHooks = true
  /\ AcceptLicensePanel_selectedFirmwareData sampleHooks <> None
  /\ hubHasExternalFlash (selectedHubType sampleHooks) = false
  /\ acceptedPrograms (dispatched (includeThenExclude sampleHooks sampleFile))
     = [Some "main.py"].
Proof.
  assert (Hfw : AcceptLicensePanel_selectedFirmwareData sampleHooks <> None)
    by discriminate.
  split; [reflexivity|]. split; [exact Hfw|]. split; [reflexivity|].
  apply (custom_program_ignores_include_switch sampleHooks sampleFile
           eq_refl Hfw eq_refl).
Defined.

(** The stock firmware's license (MIT) is ticked; the firmware flashed
    is the custom one. *)
Lemma license_tick_outlives_firmware_swap_witness :
  AcceptLicensePanel_selectedFirmwareData sampleHooks
  = Some (sampleFirmware City)
  /\ licenseText (sampleFirmware City) = "MIT"
  /\ licenseText gplFirmware = "GPL-3.0"
  /\ dispatched (tickThenSwapFirmware sampleHooks gplHooks "custom.zip")
     = [firmwareInstallPybricksDialogAccept ble_lwp3_bootloader
          [Byte.x50; Byte.x4b; Byte.x03; Byte.x04] None ""].
Proof.
  split; [reflexivity|]. split; [reflexivity|]. split; [reflexivity|].
  apply (license_tick_outlives_firmware_swap sampleHooks gplHooks
           (sampleFirmware City) gplFirmware "custom.zip"
           eq_refl eq_refl eq_refl).
Defined.

Lemma accept_after_license_unticked_witness :
  isOpen sampleHooks = true
  /\ AcceptLicensePanel_selectedFirmwareData sampleHooks <> None
  /\ licenseAccepted
       (fst (run initialState (tickUntickAndFlash sampleHooks))) = false
  /\ length (dispatched (tickUntickAndFlash sampleHooks)) = 1.
Proof.
  assert (Hfw : AcceptLicensePanel_selectedFirmwareData sampleHooks <> None)
    by discriminate.
  split; [reflexivity|]. split; [exact Hfw|].
  destruct (accept_after_license_unticked sampleHooks eq_refl Hfw)
    as (Hacc & _ & Hd).
  split; [exact Hacc|]. rewrite Hd. reflexivity.
Defined.

End DialogRunExamples.

(** ** More on the alerts saga *)

Section SagaRunFacts.
Import Alerts.
Context `{Imports}.

Lemma lookup_split (ws : list (nat * Waiting)) (n : nat) (w : nat * Waiting) :
  ws !! n = Some w ->
  exists l1 l2 : list (nat * Waiting),
    ws = l1 ++ w :: l2 /\ delete n ws = l1 ++ l2.
Proof.
  intros Hn. exists (take n ws), (drop (S n) ws). split.
  - by rewrite take_drop_middle.
  - apply delete_take_drop.
Qed.

Lemma takingChans_app (l1 l2 : list (nat * Waiting)) :
  takingChans (l1 ++ l2) = takingChans l1 ++ takingChans l2.
Proof. apply omap_app. Qed.

Lemma findTaking_None (chan : Chan) (ws : list (nat * Waiting)) (n : nat) :
  chan ∉ takingChans ws -> findTaking chan ws n = None.
Proof.
  revert n. induction ws as [|[id [wake k|c k]] ws IH]; intros n; simpl.
  - done.
  - apply IH.
  - unfold takingChans. simpl. rewrite not_elem_of_cons. intros [Hne Hnin].
    rewrite bool_decide_eq_false_2 by done. by apply IH.
Qed.

Lemma waitingFor_mono (acts acts' : list ShowAlert) (s s' : System)
    (w : nat * Waiting) :
  acts ⊆ acts' -> channels s <= channels s' ->
  waitingFor acts s w -> waitingFor acts' s' w.
Proof.
  intros Hsub Hle. unfold waitingFor. destruct (snd w) as [wake k|c k].
  - intros (a & Ha & ->). exists a. split; [by apply Hsub|done].
  - intros (Hc & a & Ha & ->). split; [lia|]. exists a.
    split; [by apply Hsub|done].
Qed.

(** The channels taken from are below the number of channels. *)
Lemma takingChans_lt (acts : list ShowAlert) (s : System)
    (ws : list (nat * Waiting)) (chan : Chan) :
  Forall (waitingFor acts s) ws -> chan ∈ takingChans ws ->
  chan < channels s.
Proof.
  intros Hw Hin. apply list_elem_of_omap in Hin as ([id w] & Hin & Hc).
  rewrite Forall_forall in Hw. specialize (Hw _ Hin).
  unfold waitingFor in Hw. simpl in *. destruct w; [done|].
  injection Hc as ->. tauto.
Qed.

Lemma Accounted_start : Accounted [] [] start.
Proof. split; simpl; constructor. Qed.

Lemma Accounted_strs (acts : list ShowAlert) (strs strs' : list string)
    (s : System) :
  strs ⊆ strs' -> Accounted acts strs s -> Accounted acts strs' s.
Proof.
  intros Hsub [Hw Hc Hn Hp]. split; try done.
  eapply Forall_impl; [exact Hp|]. intros p (a & x & Ha & Hx & ->).
  exists a, x. split; [done|]. split; [by apply Hsub|done].
Qed.

(** Only the waiting handlers, the channels and the reports matter. *)
Lemma Accounted_ext (acts : list ShowAlert) (strs : list string)
    (s s' : System) :
  waiting s' = waiting s -> channels s' = channels s -> puts s' = puts s ->
  Accounted acts strs s -> Accounted acts strs s'.
Proof.
  intros Hw Hc Hp [Hwait Hch Hn Hputs]. split; rewrite ?Hw, ?Hp; try done.
  eapply Forall_impl; [exact Hwait|]. intros w.
  apply waitingFor_mono; [done|lia].
Qed.

(** A handler that is forked, or that wakes up, joins the waiting ones. *)
Lemma Accounted_joins (acts : list ShowAlert) (strs : list string)
    (s s' : System) (l : list (nat * Waiting)) (a : ShowAlert)
    (w : nat * Waiting) :
  Forall (waitingFor acts s) l ->
  NoDup (takingChans l) ->
  a ∈ acts ->
  channels s <= channels s' ->
  waiting s' = l ++ [w] ->
  (exists wake, snd w = Sleeping wake (showAndReport a))
  \/ (snd w = Taking (channels s) (report a (channels s))
      /\ channels s' = S (channels s)) ->
  Forall (waitingFor acts s') (waiting s')
  /\ NoDup (takingChans (waiting s')).
Proof.
  intros Hl Hnd Ha Hle -> Hw. split.
  - apply Forall_app. split.
    + eapply Forall_impl; [exact Hl|]. intros w'.
      by apply waitingFor_mono.
    + apply Forall_singleton. unfold waitingFor.
      destruct Hw as [[wake ->]|[-> Hc]].
      * by exists a.
      * split; [lia|]. by exists a.
  - rewrite takingChans_app. destruct Hw as [[wake Hw]|[Hw Hc]].
    + unfold takingChans at 2. simpl. rewrite Hw. simpl.
      by rewrite app_nil_r.
    + unfold takingChans at 2. simpl. rewrite Hw. simpl.
      apply NoDup_app. split; [done|]. split; [|apply NoDup_singleton].
      intros c Hin. rewrite list_elem_of_singleton. intros ->.
      apply (takingChans_lt acts s l) in Hin; [lia|done].
Qed.

Lemma Accounted_step (acts : list ShowAlert) (strs : list string)
    (s : System) (i : Input) :
  Accounted acts strs s ->
  Accounted (acts ++ dispatched [i]) (strs ++ emitted [i]) (step s i).
Proof.
  intros Hacc. pose proof Hacc as [Hw Hch Hn Hp].
  destruct i as [a|ms|n|c x|key]; unfold dispatched, emitted;
    cbn [omap list_omap]; rewrite ?app_nil_r.
  - assert (Hsub : acts ⊆ acts ++ [a]).
    { intros a0 Ha0. apply elem_of_app. by left. }
    assert (Ha : a ∈ acts ++ [a]).
    { apply elem_of_app. right. by apply list_elem_of_singleton. }
    assert (Hp' : Forall (fun p => exists (a0 : ShowAlert) (x : string),
                a0 ∈ acts ++ [a] /\ x ∈ strs
                /\ p = alertsDidShowAlert (domain a0) (specific a0) x)
              (puts s)).
    { eapply Forall_impl; [exact Hp|]. intros p (a0 & x & Ha0 & Hx & ->).
      exists a0, x. split; [by apply Hsub|done]. }
    assert (Hw' : Forall (waitingFor (acts ++ [a]) s) (waiting s)).
    { eapply Forall_impl; [exact Hw|]. intros w.
      by apply waitingFor_mono. }
    destruct (decide (alertKey a ∈ keys (toasts s))) as [Hin|Hnin].
    + rewrite step_Dispatch_existing by done.
      match goal with |- Accounted _ _ ?s' =>
        destruct (Accounted_joins (acts ++ [a]) strs s s' (waiting s) a
                    (forked s, Sleeping (now s + 500) (showAndReport a)))
          as [Hw2 Hch2]
      end; [done|done|done|simpl; lia|done|left; by eexists|].
      split; simpl in *; try done.
      rewrite !length_app. simpl. lia.
    + rewrite step_Dispatch_fresh by done.
      match goal with |- Accounted _ _ ?s' =>
        destruct (Accounted_joins (acts ++ [a]) strs s s' (waiting s) a
                    (forked s,
                     Taking (channels s) (report a (channels s))))
          as [Hw2 Hch2]
      end; [done|done|done|simpl; lia|done|by right|].
      split; simpl in *; try done.
      rewrite !length_app. simpl. lia.
  - by apply (Accounted_ext _ _ s).
  - simpl. destruct (waiting s !! n) as [[id [wake k|c k]]|] eqn:Hlook;
      try done.
    case_bool_decide; [|done].
    destruct (lookup_split _ _ _ Hlook) as (l1 & l2 & Hws & Hdel).
    rewrite Hws in Hw, Hch, Hn.
    apply Forall_app in Hw as [Hw1 Hw2].
    apply Forall_cons in Hw2 as [(a & Ha & ->) Hw2].
    rewrite takingChans_app in Hch.
    change (takingChans ((id, Sleeping wake (showAndReport a)) :: l2))
      with (takingChans l2) in Hch.
    rewrite <- takingChans_app in Hch.
    simpl. rewrite Hdel.
    match goal with |- Accounted _ _ ?s' =>
      destruct (Accounted_joins acts strs s s' (l1 ++ l2) a
                  (id, Taking (channels s) (report a (channels s))))
        as [Hw3 Hch3]
    end; [by apply Forall_app|done|done|simpl; lia|done|by right|].
    split; simpl in *; try done.
    rewrite !length_app in *. simpl in *. lia.
  - assert (Hsub : strs ⊆ strs ++ [x]).
    { intros x0 Hx0. apply elem_of_app. by left. }
    assert (Hx : x ∈ strs ++ [x]).
    { apply elem_of_app. right. by apply list_elem_of_singleton. }
    simpl. destruct (findTaking c (waiting s) 0) as [[[n id] k]|] eqn:Hfind;
      [|by apply (Accounted_strs _ strs)].
    apply findTaking_Some in Hfind as [_ Hlook].
    replace (n - 0) with n in Hlook by lia.
    destruct (lookup_split _ _ _ Hlook) as (l1 & l2 & Hws & Hdel).
    rewrite Hws in Hw, Hch, Hn.
    apply Forall_app in Hw as [Hw1 Hw2].
    apply Forall_cons in Hw2 as [(Hc & a & Ha & ->) Hw2].
    rewrite takingChans_app in Hch.
    change (takingChans ((id, Taking c (report a c)) :: l2))
      with (c :: takingChans l2) in Hch.
    apply NoDup_app in Hch as (Hnd1 & Hdisj & Hnd2).
    apply NoDup_cons in Hnd2 as [Hnin2 Hnd2].
    simpl. rewrite Hdel. split; simpl.
    + apply Forall_app. by split.
    + rewrite takingChans_app. apply NoDup_app. split; [done|].
      split; [|done]. intros c' Hin1 Hin2. apply (Hdisj c' Hin1).
      apply elem_of_cons. by right.
    + rewrite !length_app in *. simpl in *. lia.
    + apply Forall_app. split.
      * eapply Forall_impl; [exact Hp|]. intros p (a0 & x0 & Ha0 & Hx0 & ->).
        exists a0, x0. split; [done|]. split; [by apply Hsub|done].
      * apply Forall_singleton. by exists a, x.
  - by apply (Accounted_ext _ _ s).
Qed.

Lemma dispatched_cons (i : Input) (inputs : list Input) :
  dispatched (i :: inputs) = dispatched [i] ++ dispatched inputs.
Proof. by destruct i. Qed.

Lemma emitted_cons (i : Input) (inputs : list Input) :
  emitted (i :: inputs) = emitted [i] ++ emitted inputs.
Proof. by destruct i. Qed.

Lemma Accounted_run (inputs : list Input) (acts : list ShowAlert)
    (strs : list string) (s : System) :
  Accounted acts strs s ->
  Accounted (acts ++ dispatched inputs) (strs ++ emitted inputs)
    (run s inputs).
Proof.
  revert acts strs s.
  induction inputs as [|i inputs IH]; intros acts strs s Hacc.
  - unfold dispatched, emitted. simpl. by rewrite !app_nil_r.
  - rewrite dispatched_cons, emitted_cons, !app_assoc.
    change (run s (i :: inputs)) with (run (step s i) inputs).
    apply IH. by apply Accounted_step.
Qed.

Lemma Accounted_reached (inputs : list Input) :
  Accounted (dispatched inputs) (emitted inputs) (run start inputs).
Proof. exact (Accounted_run inputs [] [] start Accounted_start). Qed.

(** X8. However the dispatches, the timers, the emissions and the removals
    of toasts interleave, every dispatched [alertsShowAlert] action has its
    handler either still waiting (at its [delay] or at its [take]) or done
    with exactly one [alertsDidShowAlert] put: no handler is lost and none
    reports twice. *)
Theorem every_alert_waits_or_has_reported (inputs : list Input) :
  length (dispatched inputs)
  = length (waiting (run start inputs)) + length (puts (run start inputs)).
Proof. exact (acc_count _ _ _ (Accounted_reached inputs)). Qed.

(** X9. An [alertsDidShowAlert] action the saga puts carries the domain and
    the specific name of an [alertsShowAlert] action that was dispatched,
    and a string that a toast emitted. *)
Theorem report_names_dispatched_alert (inputs : list Input)
    (d sp x : string) :
  alertsDidShowAlert d sp x ∈ puts (run start inputs) ->
  exists a : ShowAlert,
    a ∈ dispatched inputs /\ domain a = d /\ specific a = sp
    /\ x ∈ emitted inputs.
Proof.
  intros Hin. pose proof (acc_puts _ _ _ (Accounted_reached inputs)) as Hp.
  rewrite Forall_forall in Hp. destruct (Hp _ Hin) as (a & x' & Ha & Hx & E).
  injection E as -> -> ->. by exists a.
Qed.

(** *** What a timer and an emission do to the handlers of [acts] *)

Lemma step_TimerFires_cases (acts : list ShowAlert) (s : System) (n : nat) :
  Forall (waitingFor acts s) (waiting s) ->
  step s (TimerFires n) = s
  \/ exists (id wake : nat) (a : ShowAlert) (l1 l2 : list (nat * Waiting)),
       a ∈ acts
       /\ waiting s = l1 ++ (id, Sleeping wake (showAndReport a)) :: l2
       /\ step s (TimerFires n) =
            {| toasts :=
                 toaster_show
                   (getAlertProps (domain a) (specific a) (channels s)
                      (props a))
                   (alertKey a) (toasts s);
               now := now s;
               waiting :=
                 (l1 ++ l2)
                 ++ [(id, Taking (channels s) (report a (channels s)))];
               forked := forked s;
               channels := S (channels s);
               puts := puts s;
               log := log s ++ [{| at_ms := now s; by_handler := id;
                                   did := Shown (alertKey a) |}] |}.
Proof.
  intros Hw. simpl.
  destruct (waiting s !! n) as [[id [wake k|c k]]|] eqn:Hlook;
    [|by left..].
  case_bool_decide; [|by left]. right.
  destruct (lookup_split _ _ _ Hlook) as (l1 & l2 & Hws & Hdel).
  destruct (Forall_lookup_1 _ _ _ _ Hw Hlook) as (a & Ha & ->).
  exists id, wake, a, l1, l2. split; [done|]. split; [done|].
  simpl. by rewrite Hdel.
Qed.

Lemma step_Emit_cases (acts : list ShowAlert) (s : System) (c : Chan)
    (x : string) :
  Forall (waitingFor acts s) (waiting s) ->
  (step s (Emit c x) = s /\ c ∉ takingChans (waiting s))
  \/ exists (id : nat) (a : ShowAlert) (l1 l2 : list (nat * Waiting)),
       a ∈ acts
       /\ waiting s = l1 ++ (id, Taking c (report a c)) :: l2
       /\ step s (Emit c x) =
            {| toasts := toasts s;
               now := now s;
               waiting := l1 ++ l2;
               forked := forked s;
               channels := channels s;
               puts := puts s
                       ++ [alertsDidShowAlert (domain a) (specific a) x];
               log := log s |}.
Proof.
  intros Hw. simpl.
  destruct (findTaking c (waiting s) 0) as [[[n id] k]|] eqn:Hfind.
  - right. apply findTaking_Some in Hfind as [_ Hlook].
    replace (n - 0) with n in Hlook by lia.
    destruct (lookup_split _ _ _ Hlook) as (l1 & l2 & Hws & Hdel).
    destruct (Forall_lookup_1 _ _ _ _ Hw Hlook) as (_ & a & Ha & ->).
    exists id, a, l1, l2. split; [done|]. split; [done|].
    simpl. by rewrite Hdel.
  - left. split; [done|]. revert Hfind. generalize 0.
    induction (waiting s) as [|[id [wake k|c' k]] ws IH]; intros n; simpl.
    + intros _. apply not_elem_of_nil.
    + apply (IH (Forall_inv_tail Hw)).
    + case_bool_decide; [done|]. intros Hfind.
      change (takingChans ((id, Taking c' k) :: ws))
        with (c' :: takingChans ws).
      apply not_elem_of_cons. split; [congruence|].
      by apply (IH (Forall_inv_tail Hw) (S n)).
Qed.

Lemma exec_channels (saga : Saga) (id : nat) (s : System) :
  channels s <= channels (exec id saga s).
Proof.
  revert s.
  induction saga as [|k IH|key k IH|ms k IH|sub key k IH|c k IH|a k IH|c k IH];
    intros s; simpl; try done.
  - etrans; [|apply IH]. done.
  - etrans; [|apply IH]. simpl. lia.
  - etrans; [|apply IH]. done.
Qed.

Lemma step_channels (s : System) (i : Input) :
  channels s <= channels (step s i).
Proof.
  destruct i as [a|ms|n|c x|key]; simpl; try done.
  - etrans; [|apply exec_channels]. done.
  - destruct (waiting s !! n) as [[id [wake k|c k]]|]; try done.
    case_bool_decide; [|done]. etrans; [|apply exec_channels]. done.
  - destruct (findTaking c (waiting s) 0) as [[[n id] k]|]; [|done].
    etrans; [|apply exec_channels]. done.
Qed.

(** The handlers take from the channels they took from before, or from
    the channel that has just been created. *)
Lemma takingChans_step (acts : list ShowAlert) (s : System) (i : Input)
    (c : Chan) :
  Forall (waitingFor acts s) (waiting s) ->
  c ∈ takingChans (waiting (step s i)) ->
  c ∈ takingChans (waiting s) \/ c = channels s.
Proof.
  intros Hw. destruct i as [a|ms|n|c' x|key].
  - destruct (decide (alertKey a ∈ keys (toasts s))) as [Hin|Hnin].
    + rewrite step_Dispatch_existing by done. simpl.
      rewrite takingChans_app, elem_of_app. intros [Hc|Hc]; [by left|].
      by apply elem_of_nil in Hc.
    + rewrite step_Dispatch_fresh by done. simpl.
      rewrite takingChans_app, elem_of_app. intros [Hc|Hc]; [by left|].
      right. by apply list_elem_of_singleton in Hc.
  - by left.
  - destruct (step_TimerFires_cases acts s n Hw)
      as [->|(id & wake & a & l1 & l2 & Ha & Hws & ->)]; [by left|].
    simpl. rewrite Hws, !takingChans_app, !elem_of_app.
    intros [[Hc|Hc]|Hc].
    + left. by left.
    + left. by right.
    + right. by apply list_elem_of_singleton in Hc.
  - destruct (step_Emit_cases acts s c' x Hw)
      as [[-> _]|(id & a & l1 & l2 & Ha & Hws & ->)]; [by left|].
    simpl. rewrite Hws, !takingChans_app, !elem_of_app.
    intros [Hc|Hc]; left; [by left|].
    right. apply elem_of_cons. by right.
  - by left.
Qed.

Lemma closed_step (acts : list ShowAlert) (s : System) (i : Input)
    (chan : Chan) :
  Forall (waitingFor acts s) (waiting s) ->
  closed chan s -> closed chan (step s i).
Proof.
  intros Hw [Hlt Hnin]. split.
  - pose proof (step_channels s i). lia.
  - intros Hin. apply (takingChans_step acts) in Hin; [|done].
    destruct Hin as [Hin| ->]; [done|lia].
Qed.

Lemma closed_run (inputs : list Input) (acts : list ShowAlert)
    (strs : list string) (s : System) (chan : Chan) :
  Accounted acts strs s -> closed chan s -> closed chan (run s inputs).
Proof.
  revert acts strs s.
  induction inputs as [|i inputs IH]; intros acts strs s Hacc Hc; [done|].
  change (run s (i :: inputs)) with (run (step s i) inputs).
  eapply IH; [by apply Accounted_step|].
  eapply closed_step; [apply Hacc|done].
Qed.

(** An emission on a channel leaves no handler taking from it. *)
Lemma step_Emit_closed (acts : list ShowAlert) (strs : list string)
    (s : System) (chan : Chan) (x : string) :
  Accounted acts strs s -> chan < channels s ->
  closed chan (step s (Emit chan x)).
Proof.
  intros [Hw Hch _ _] Hlt.
  destruct (step_Emit_cases acts s chan x Hw)
    as [[-> Hnin]|(id & a & l1 & l2 & Ha & Hws & ->)]; [done|].
  split; [done|]. simpl. rewrite Hws, takingChans_app in Hch.
  change (takingChans ((id, Taking chan (report a chan)) :: l2))
    with (chan :: takingChans l2) in Hch.
  apply NoDup_app in Hch as (_ & Hdisj & Hnd).
  apply NoDup_cons in Hnd as [Hnin2 _].
  rewrite takingChans_app, elem_of_app. intros [Hin|Hin]; [|done].
  apply (Hdisj _ Hin). by left.
Qed.

Lemma saga_run_app (s : System) (inputs1 inputs2 : list Input) :
  run s (inputs1 ++ inputs2) = run (run s inputs1) inputs2.
Proof. apply foldl_app. Qed.

(** X10. A handler takes from its channel once.  Once a string was emitted
    on a channel that exists, whatever happens next, a further emission
    on it changes nothing: no second [alertsDidShowAlert] is put for it,
    and no toast is touched. *)
Theorem later_emissions_are_ignored (before after : list Input)
    (chan : Chan) (x y : string) :
  chan < channels (run start before) ->
  step (run start (before ++ Emit chan x :: after)) (Emit chan y)
  = run start (before ++ Emit chan x :: after).
Proof.
  intros Hlt. rewrite saga_run_app.
  change (run (run start before) (Emit chan x :: after))
    with (run (step (run start before) (Emit chan x)) after).
  pose proof (Accounted_reached before) as Hacc.
  pose proof (step_Emit_closed _ _ _ _ x Hacc Hlt) as Hc.
  apply (Accounted_step _ _ _ (Emit chan x)) in Hacc.
  pose proof (closed_run after _ _ _ _ Hacc Hc) as [_ Hnin].
  simpl. by rewrite findTaking_None.
Qed.

(** *** The toasts on screen *)

Lemma toastOf_mono (acts acts' : list ShowAlert) (s s' : System)
    (t : Toast) :
  acts ⊆ acts' -> channels s <= channels s' ->
  toastOf acts s t -> toastOf acts' s' t.
Proof.
  intros Hsub Hle (a & c & Ha & Hc & ->). exists a, c.
  split; [by apply Hsub|]. split; [lia|done].
Qed.

Lemma toaster_dismiss_Forall (P : Toast -> Prop) (key : string)
    (ts : list Toast) :
  Forall P ts -> Forall P (toaster_dismiss key ts).
Proof.
  rewrite !Forall_forall. intros HP t Hin.
  apply list_elem_of_filter in Hin as [_ Hin]. by apply HP.
Qed.

Lemma toaster_show_Forall (P : Toast -> Prop) (p : ToastProps)
    (key : string) (ts : list Toast) :
  P {| toast_props := p; toast_key := key |} ->
  Forall P ts -> Forall P (toaster_show p key ts).
Proof.
  intros Hp Hts. unfold toaster_show.
  destruct (toaster_isNewToastKey key ts); [by constructor|].
  apply Forall_fmap. eapply Forall_impl; [exact Hts|].
  intros t Ht. simpl. by case_bool_decide.
Qed.

Lemma toasts_step (acts : list ShowAlert) (s : System) (i : Input) :
  Forall (waitingFor acts s) (waiting s) ->
  Forall (toastOf acts s) (toasts s) ->
  Forall (toastOf (acts ++ dispatched [i]) (step s i)) (toasts (step s i)).
Proof.
  intros Hw Hts.
  assert (Hsub : acts ⊆ acts ++ dispatched [i]).
  { intros a0 Ha0. apply elem_of_app. by left. }
  assert (Hkeep : forall s' : System, channels s <= channels s' ->
            Forall (toastOf (acts ++ dispatched [i]) s') (toasts s)).
  { intros s' Hle. eapply Forall_impl; [exact Hts|]. intros t.
    by apply toastOf_mono. }
  destruct i as [a|ms|n|c x|key].
  - assert (Ha : a ∈ acts ++ dispatched [Dispatch a]).
    { apply elem_of_app. right. by apply list_elem_of_singleton. }
    destruct (decide (alertKey a ∈ keys (toasts s))) as [Hin|Hnin].
    + rewrite step_Dispatch_existing by done. simpl.
      apply toaster_dismiss_Forall. by apply Hkeep.
    + rewrite step_Dispatch_fresh by done. simpl. constructor.
      * exists a, (channels s). split; [done|]. split; [simpl; lia|done].
      * apply Hkeep. simpl. lia.
  - by apply Hkeep.
  - destruct (step_TimerFires_cases acts s n Hw)
      as [->|(id & wake & a & l1 & l2 & Ha & Hws & ->)]; [by apply Hkeep|].
    simpl. apply toaster_show_Forall; [|apply Hkeep; simpl; lia].
    exists a, (channels s). split; [by apply Hsub|].
    split; [simpl; lia|done].
  - destruct (step_Emit_cases acts s c x Hw)
      as [[-> _]|(id & a & l1 & l2 & Ha & Hws & ->)]; by apply Hkeep.
  - simpl. apply toaster_dismiss_Forall. by apply Hkeep.
Qed.

Lemma toasts_run (inputs : list Input) (acts : list ShowAlert)
    (strs : list string) (s : System) :
  Accounted acts strs s ->
  Forall (toastOf acts s) (toasts s) ->
  Forall (toastOf (acts ++ dispatched inputs) (run s inputs))
    (toasts (run s inputs)).
Proof.
  revert acts strs s.
  induction inputs as [|i inputs IH]; intros acts strs s Hacc Hts.
  - unfold dispatched. simpl. by rewrite app_nil_r.
  - rewrite dispatched_cons, app_assoc.
    change (run s (i :: inputs)) with (run (step s i) inputs).
    eapply IH; [by apply Accounted_step|].
    apply toasts_step; [apply Hacc|done].
Qed.

(** X11. Every toast on screen is the toast of an [alertsShowAlert] action
    that was dispatched: it has the key of the action, and the properties
    [getAlertProps] builds from the action's domain, specific name and
    props around the [emit] of a channel the saga created. *)
Theorem toasts_are_of_dispatched_alerts (inputs : list Input) :
  Forall (toastOf (dispatched inputs) (run start inputs))
    (toasts (run start inputs)).
Proof.
  apply (toasts_run inputs [] [] start Accounted_start). constructor.
Qed.


(** *** The keys of the toasts *)

(** X13. For actions whose domain and specific name hold no dot, the key
    is read back in one way: two such actions have the same key (and so
    count as duplicates for [handleShowAlert]) only if they agree on the
    domain, on the specific name and on the JSON text of the props. *)
Theorem alertKey_inj_without_dots (a b : ShowAlert) :
  dotFree (domain a) -> dotFree (specific a) ->
  dotFree (domain b) -> dotFree (specific b) ->
  alertKey a = alertKey b ->
  domain a = domain b /\ specific a = specific b
  /\ JSON_stringify (props a) = JSON_stringify (props b).
Proof.
  intros Hda Hsa Hdb Hsb E. unfold alertKey in E.
  apply append_dot_inj in E as [Hd E]; [|done..].
  apply append_dot_inj in E as [Hs E]; [|done..].
  done.
Qed.

(** X14. With a dot in the names the key is ambiguous: the action with
    domain [d.s1] and specific name [s2] has the key of the action with
    domain [d] and specific name [s1.s2] (for the same props), and so the
    handler of the second takes the toast of the first for a duplicate and
    dismisses it. *)
Theorem dotted_names_share_a_key (d s1 s2 : string) (p : Props) :
  alertKey (dotInDomain d s1 s2 p) = alertKey (dotInSpecific d s1 s2 p)
  /\ toasts (run start [Dispatch (dotInDomain d s1 s2 p)])
     = [{| toast_props :=
             getAlertProps (d +:+ "." +:+ s1) s2 0 p;
           toast_key := alertKey (dotInDomain d s1 s2 p) |}]
  /\ toasts (run start [Dispatch (dotInDomain d s1 s2 p);
                        Dispatch (dotInSpecific d s1 s2 p)]) = [].
Proof.
  assert (E : alertKey (dotInDomain d s1 s2 p)
              = alertKey (dotInSpecific d s1 s2 p)).
  { unfold alertKey, dotInDomain, dotInSpecific. cbn [domain specific props].
    by rewrite !string_append_assoc. }
  split; [exact E|].
  unfold run. cbn [foldl].
  rewrite (step_Dispatch_fresh start) by apply not_elem_of_nil.
  split; [done|].
  rewrite step_Dispatch_existing.
  - cbn [toasts start]. unfold toaster_dismiss. rewrite filter_cons.
    cbn [toast_key]. by rewrite decide_False by (intros Hne; by apply Hne).
  - cbn [toasts start keys fmap list_fmap toast_key]. rewrite E.
    apply elem_of_cons. by left.
Qed.

End SagaRunFacts.

Section SagaRunExamples.
Import Alerts.
#[local] Existing Instance sampleImports.

(** The toast of the sample alert emits twice: one report is put. *)
Example sampleReport_puts :
  puts (run start sampleReport)
  = [alertsDidShowAlert "ble" "missingService" "dismiss"]
  /\ waiting (run start sampleReport) = [].
Proof. split; reflexivity. Qed.

Lemma report_names_dispatched_alert_witness :
  alertsDidShowAlert "ble" "missingService" "dismiss"
    ∈ puts (run start sampleReport)
  /\ exists a : ShowAlert,
       a ∈ dispatched sampleReport /\ domain a = "ble"
       /\ specific a = "missingService" /\ "dismiss" ∈ emitted sampleReport.
Proof.
  assert (Hin : alertsDidShowAlert "ble" "missingService" "dismiss"
                  ∈ puts (run start sampleReport)).
  { apply list_elem_of_singleton. reflexivity. }
  split; [exact Hin|].
  exact (report_names_dispatched_alert sampleReport _ _ _ Hin).
Defined.

Lemma later_emissions_are_ignored_witness :
  0 < channels (run start [Dispatch sampleAlert])
  /\ step (run start ([Dispatch sampleAlert]
                      ++ Emit 0 "dismiss" :: [Dispatch otherAlert]))
       (Emit 0 "again")
     = run start ([Dispatch sampleAlert]
                  ++ Emit 0 "dismiss" :: [Dispatch otherAlert]).
Proof.
  assert (Hlt : 0 < channels (run start [Dispatch sampleAlert])).
  { vm_compute. lia. }
  split; [exact Hlt|].
  exact (later_emissions_are_ignored [Dispatch sampleAlert]
           [Dispatch otherAlert] 0 "dismiss" "again" Hlt).
Defined.

(** The toast of the sample alert stays when another alert is shown. *)
Example otherAlert_toasts :
  toasts (run start [Dispatch sampleAlert; Dispatch otherAlert])
  = [{| toast_props := ("firmware.flashProgress", 1);
        toast_key := "firmware.flashProgress.{}" |};
     {| toast_props := ("ble.missingService", 0);
        toast_key := "ble.missingService.{}" |}].
Proof. reflexivity. Qed.

Lemma alertKey_inj_without_dots_witness :
  dotFree (domain sampleAlert) /\ dotFree (specific sampleAlert)
  /\ domain sampleAlert = "ble" /\ specific sampleAlert = "missingService"
  /\ JSON_stringify (props sampleAlert) = "{}".
Proof.
  assert (Hd : dotFree (domain sampleAlert)).
  { vm_compute. repeat split; discriminate. }
  assert (Hs : dotFree (specific sampleAlert)).
  { vm_compute. repeat split; discriminate. }
  split; [exact Hd|]. split; [exact Hs|].
  exact (alertKey_inj_without_dots sampleAlert
           {| domain := "ble"; specific := "missingService"; props := "{}" |}
           Hd Hs Hd Hs eq_refl).
Defined.

(** The key of [a.b] with [c] and of [a] with [b.c]. *)
Example dotted_key :
  alertKey (dotInDomain "a" "b" "c" "{}") = "a.b.c.{}"
  /\ alertKey (dotInSpecific "a" "b" "c" "{}") = "a.b.c.{}".
Proof. split; reflexivity. Qed.

End SagaRunExamples.
